(** * Payment callback of the VIP purchase flow

    A shallow embedding of [paymentCallback.js]: the signature routine
    [calculateSign] and the webhook handler [handlePaymentCallback],
    together with the parts of the JavaScript run time they rely on
    (MD5, [JSON.parse], template-literal string conversion) and a model
    of the LeanCloud record store the handler reads and writes. *)

From Stdlib Require Import ZArith Ascii String List Lia Permutation.
From stdpp Require Import base option list sorting gmap strings pretty.

Local Open Scope string_scope.
Local Open Scope list_scope.
Local Open Scope Z_scope.

(** ** Strings

    Strings are sequences of 8-bit characters: the UTF-8 text as it
    travels in the form body and as it is fed to the hash.  JavaScript
    compares strings by UTF-16 code units; [key_le] below is that order,
    read off the UTF-8 bytes. *)

Definition str_bytes (s : string) : list Z :=
  map (fun c => Z.of_N (N_of_ascii c)) (list_ascii_of_string s).

(** [String.prototype.toUpperCase], on the letters of the ASCII range. *)
Definition upper_ascii (c : ascii) : ascii :=
  let n := N_of_ascii c in
  if ((97 <=? n) && (n <=? 122))%N then ascii_of_N (n - 32) else c.

Fixpoint toUpperCase (s : string) : string :=
  match s with
  | EmptyString => EmptyString
  | String c r => String (upper_ascii c) (toUpperCase r)
  end.

(** ** MD5 (RFC 1321), as computed by [crypto.createHash('md5')] *)

Module MD5.

Definition w32 : Z := 2 ^ 32.

Definition add32 (x y : Z) : Z := (x + y) mod w32.

Definition not32 (x : Z) : Z := Z.lxor x (w32 - 1).

Definition rotl32 (x c : Z) : Z :=
  Z.lor (Z.shiftl x c mod w32) (Z.shiftr x (32 - c)).

(** [K i = floor (2^32 * |sin (i + 1)|)] *)
Definition K : list Z :=
  [ 0xd76aa478; 0xe8c7b756; 0x242070db; 0xc1bdceee;
    0xf57c0faf; 0x4787c62a; 0xa8304613; 0xfd469501;
    0x698098d8; 0x8b44f7af; 0xffff5bb1; 0x895cd7be;
    0x6b901122; 0xfd987193; 0xa679438e; 0x49b40821;
    0xf61e2562; 0xc040b340; 0x265e5a51; 0xe9b6c7aa;
    0xd62f105d; 0x02441453; 0xd8a1e681; 0xe7d3fbc8;
    0x21e1cde6; 0xc33707d6; 0xf4d50d87; 0x455a14ed;
    0xa9e3e905; 0xfcefa3f8; 0x676f02d9; 0x8d2a4c8a;
    0xfffa3942; 0x8771f681; 0x6d9d6122; 0xfde5380c;
    0xa4beea44; 0x4bdecfa9; 0xf6bb4b60; 0xbebfbc70;
    0x289b7ec6; 0xeaa127fa; 0xd4ef3085; 0x04881d05;
    0xd9d4d039; 0xe6db99e5; 0x1fa27cf8; 0xc4ac5665;
    0xf4292244; 0x432aff97; 0xab9423a7; 0xfc93a039;
    0x655b59c3; 0x8f0ccc92; 0xffeff47d; 0x85845dd1;
    0x6fa87e4f; 0xfe2ce6e0; 0xa3014314; 0x4e0811a1;
    0xf7537e82; 0xbd3af235; 0x2ad7d2bb; 0xeb86d391 ].

(** Per-step left-rotation amounts. *)
Definition R : list Z :=
  [ 7; 12; 17; 22; 7; 12; 17; 22; 7; 12; 17; 22; 7; 12; 17; 22;
    5; 9; 14; 20; 5; 9; 14; 20; 5; 9; 14; 20; 5; 9; 14; 20;
    4; 11; 16; 23; 4; 11; 16; 23; 4; 11; 16; 23; 4; 11; 16; 23;
    6; 10; 15; 21; 6; 10; 15; 21; 6; 10; 15; 21; 6; 10; 15; 21 ].

Record state := St { sa : Z; sb : Z; sc : Z; sd : Z }.

Definition init : state :=
  St 0x67452301 0xefcdab89 0x98badcfe 0x10325476.

(** The auxiliary function of step [i] and the index of the message
    word it consumes. *)
Definition mix (i : nat) (b c d : Z) : Z * nat :=
  if (i <? 16)%nat then
    (Z.lor (Z.land b c) (Z.land (not32 b) d), i)
  else if (i <? 32)%nat then
    (Z.lor (Z.land d b) (Z.land (not32 d) c), ((5 * i + 1) mod 16)%nat)
  else if (i <? 48)%nat then
    (Z.lxor b (Z.lxor c d), ((3 * i + 5) mod 16)%nat)
  else
    (Z.lxor c (Z.lor b (not32 d)), ((7 * i) mod 16)%nat).

Definition step (M : list Z) (s : state) (i : nat) : state :=
  let '(f, g) := mix i (sb s) (sc s) (sd s) in
  let f := add32 (add32 (add32 f (sa s)) (nth i K 0)) (nth g M 0) in
  St (sd s) (add32 (sb s) (rotl32 f (nth i R 0))) (sb s) (sc s).

Definition block (s : state) (M : list Z) : state :=
  let t := fold_left (step M) (seq 0 64) s in
  St (add32 (sa s) (sa t)) (add32 (sb s) (sb t))
     (add32 (sc s) (sc t)) (add32 (sd s) (sd t)).

(** Little-endian bytes of a word, and back. *)
Fixpoint le_bytes (n : nat) (x : Z) : list Z :=
  match n with
  | O => []
  | S n => x mod 256 :: le_bytes n (x / 256)
  end.

Fixpoint words (bs : list Z) : list Z :=
  match bs with
  | b0 :: b1 :: b2 :: b3 :: r =>
      (b0 + 256 * (b1 + 256 * (b2 + 256 * b3))) :: words r
  | _ => []
  end.

(** One [1] bit, zeros up to 56 modulo 64, then the bit length on 64
    bits. *)
Definition pad (bs : list Z) : list Z :=
  let len := Z.of_nat (length bs) in
  let zeros := Z.to_nat ((55 - len) mod 64) in
  bs ++ 128 :: repeat 0 zeros ++ le_bytes 8 ((8 * len) mod 2 ^ 64).

Fixpoint blocks (n : nat) (ws : list Z) (s : state) : state :=
  match n with
  | O => s
  | S n => blocks n (drop 16 ws) (block s (take 16 ws))
  end.

Definition digest (bs : list Z) : list Z :=
  let ws := words (pad bs) in
  let s := blocks (length ws / 16) ws init in
  le_bytes 4 (sa s) ++ le_bytes 4 (sb s) ++
  le_bytes 4 (sc s) ++ le_bytes 4 (sd s).

End MD5.

(** [digest('hex')]: two lower-case hexadecimal digits per byte. *)
Definition hex_digit (n : Z) : ascii :=
  if n <? 10 then ascii_of_N (Z.to_N (48 + n))
  else ascii_of_N (Z.to_N (87 + n)).

Fixpoint hex (bs : list Z) : string :=
  match bs with
  | [] => EmptyString
  | b :: r => String (hex_digit (b / 16)) (String (hex_digit (b mod 16)) (hex r))
  end.

(** [crypto.createHash('md5').update(s).digest('hex')] *)
Definition md5_hex (s : string) : string := hex (MD5.digest (str_bytes s)).

(** ** Request parameters

    The values a body parser puts into [req.body] and that
    [calculateSign] receives: absent, [null], or a scalar.  Numbers are
    the safe integers (amounts in minor currency units): every one is a
    JavaScript number, and its string conversion is its decimal
    numeral. *)

Record safe_int := SafeInt {
  int_value : Z;
  int_safe : (Z.abs int_value <=? 9007199254740991) = true
}.

Inductive scalar :=
  | SUndefined
  | SNull
  | SBool (b : bool)
  | SNum (n : safe_int)
  | SStr (s : string).

(** The string a template literal substitutes for [${v}]. *)
Definition ToString (v : scalar) : string :=
  match v with
  | SUndefined => "undefined"
  | SNull => "null"
  | SBool true => "true"
  | SBool false => "false"
  | SNum n => pretty (int_value n)
  | SStr s => s
  end.

(** A parameter object: its own properties in the order [Object.keys]
    lists them.  A JavaScript object holds each key once. *)
Definition object := list (string * scalar).

Definition Object_keys (o : object) : list string := map fst o.

(** [o[k]]: the property's value, [undefined] when [o] has none. *)
Fixpoint prop (o : object) (k : string) : scalar :=
  match o with
  | [] => SUndefined
  | (k', v) :: r => if String.eqb k' k then v else prop r k
  end.

(** The order of [Array.prototype.sort()] without a comparator, on
    strings: lexicographic on UTF-16 code units.  On UTF-8 text that is
    the order of the bytes, except that a character from U+E000 to
    U+FFFF (lead byte [EE] or [EF]) comes after the characters beyond
    U+FFFF (lead bytes [F0] to [F4]), whose code units are surrogates. *)
Definition unit_rank (c : ascii) : N :=
  let n := N_of_ascii c in
  if ((n =? 238) || (n =? 239))%N then (n + 256)%N else n.

Fixpoint key_compare (a b : string) : comparison :=
  match a, b with
  | EmptyString, EmptyString => Eq
  | EmptyString, String _ _ => Lt
  | String _ _, EmptyString => Gt
  | String x a', String y b' =>
      match N.compare (unit_rank x) (unit_rank y) with
      | Eq => key_compare a' b'
      | c => c
      end
  end.

Definition key_leb (a b : string) : bool :=
  match key_compare a b with
  | Gt => false
  | _ => true
  end.

Definition key_le (a b : string) : Prop := key_leb a b = true.

#[global] Instance key_le_dec : RelDecision key_le :=
  fun a b => decide (key_leb a b = true).

(** Text of the ASCII range only. *)
Definition ascii_only (s : string) : bool :=
  forallb (fun c => (N_of_ascii c <? 128)%N) (list_ascii_of_string s).

Definition sort (ks : list string) : list string := merge_sort key_le ks.

(** [Array.prototype.join] *)
Definition join (sep : string) (l : list string) : string :=
  String.concat sep l.

(** The filter callback of [calculateSign]:
    [k !== 'sign' && params[k] !== '' && params[k] !== null &&
     params[k] !== undefined]. *)
Definition signed_key (params : object) (k : string) : bool :=
  negb (String.eqb k "sign") &&
  match prop params k with
  | SStr EmptyString => false
  | SNull => false
  | SUndefined => false
  | _ => true
  end.

Definition pair_text (params : object) (k : string) : string :=
  k +:+ "=" +:+ ToString (prop params k).

Definition signStr (params : object) : string :=
  join "&"
    (map (pair_text params)
       (List.filter (signed_key params) (sort (Object_keys params)))).

Definition fullStr (params : object) (key : string) : string :=
  signStr params +:+ "&key=" +:+ key.

Definition calculateSign (params : object) (key : string) : string :=
  toUpperCase (md5_hex (fullStr params key)).

(** The signature as section 4.1 of the specification words it, to be
    compared with [calculateSign]: entries with an empty, null or absent
    value are dropped, the remaining keys sorted in byte-wise
    lexicographic order, the pairs joined, the secret appended, the
    whole hashed. *)
Definition dropped (v : scalar) : bool :=
  match v with
  | SStr EmptyString | SNull | SUndefined => true
  | _ => false
  end.

Definition byte_le (a b : string) : Prop := String.leb a b = true.

#[global] Instance byte_le_dec : RelDecision byte_le :=
  fun a b => decide (String.leb a b = true).

Definition sort_bytes (ks : list string) : list string := merge_sort byte_le ks.

Definition canonical_spec (params : object) (secret : string) : string :=
  let remaining := List.filter (fun kv => negb (dropped (snd kv))) params in
  join "&"
    (map (fun k => k +:+ "=" +:+ ToString (prop params k))
       (sort_bytes (Object_keys remaining)))
  +:+ "&key=" +:+ secret.

(** Two keys outside ASCII, as UTF-8: U+1F600 and U+FF5E. *)
Definition key_U1F600 : string :=
  String (ascii_of_N 240) (String (ascii_of_N 159)
    (String (ascii_of_N 152) (String (ascii_of_N 128) EmptyString))).

Definition key_UFF5E : string :=
  String (ascii_of_N 239) (String (ascii_of_N 189)
    (String (ascii_of_N 158) EmptyString)).

Definition computeSignature_spec (params : object) (secret : string) : string :=
  toUpperCase (md5_hex (canonical_spec params secret)).

(** A parameter object without its [sign] entry. *)
Definition without_sign (params : object) : object :=
  List.filter (fun kv => negb (String.eqb (fst kv) "sign")) params.

(** ** JavaScript values held in records and produced by [JSON.parse]

    A number is kept as the exact decimal [m * 10 ^ e] of its literal;
    a date as its epoch milliseconds. *)

#[local] Set Warnings "-register-all".

Inductive JsVal :=
  | JUndefined
  | JNull
  | JBool (b : bool)
  | JNum (m e : Z)
  | JStr (s : string)
  | JDate (t : Z)
  | JArr (items : list JsVal)
  | JObj (fields : list (string * JsVal)).

Definition of_scalar (v : scalar) : JsVal :=
  match v with
  | SUndefined => JUndefined
  | SNull => JNull
  | SBool b => JBool b
  | SNum n => JNum (int_value n) 0
  | SStr s => JStr s
  end.

(** The values [||] skips over. *)
Definition falsy (v : JsVal) : bool :=
  match v with
  | JUndefined | JNull | JBool false | JNum 0 _ | JStr EmptyString => true
  | _ => false
  end.

(** [o.k] on a parsed object: with a repeated key the last member wins. *)
Fixpoint field (fs : list (string * JsVal)) (k : string) : JsVal :=
  match fs with
  | [] => JUndefined
  | (k', v) :: r =>
      if existsb (fun p => String.eqb (fst p) k) r then field r k
      else if String.eqb k' k then v else JUndefined
  end.

(** ** [JSON.parse] (ECMA-404) *)

Module JSON.

(** Characters are told apart by code: 34 the double quote, 92 the
    backslash, 123 and 125 the braces, 91 and 93 the brackets, 44 the
    comma, 58 the colon, 45 and 43 the signs, 46 the point. *)

Definition code (c : ascii) : Z := Z.of_N (N_of_ascii c).
Definition chr (n : Z) : ascii := ascii_of_N (Z.to_N n).

Definition ch (c : ascii) (n : Z) : bool := code c =? n.

Definition is_ws (c : ascii) : bool :=
  ch c 32 || ch c 9 || ch c 10 || ch c 13.

Fixpoint skip_ws (s : list ascii) : list ascii :=
  match s with
  | c :: r => if is_ws c then skip_ws r else s
  | [] => []
  end.

Definition digit (c : ascii) : option Z :=
  let n := code c in
  if (48 <=? n) && (n <=? 57) then Some (n - 48) else None.

Definition hexval (c : ascii) : option Z :=
  let n := code c in
  if (48 <=? n) && (n <=? 57) then Some (n - 48)
  else if (65 <=? n) && (n <=? 70) then Some (n - 55)
  else if (97 <=? n) && (n <=? 102) then Some (n - 87)
  else None.

(** A maximal run of digits: its value on top of [acc], how many were
    read on top of [k], and what follows. *)
Fixpoint digits (s : list ascii) (acc k : Z) : Z * Z * list ascii :=
  match s with
  | c :: r =>
      match digit c with
      | Some d => digits r (10 * acc + d) (k + 1)
      | None => (acc, k, s)
      end
  | [] => (acc, k, [])
  end.

(** [int]: a single [0], or a non-zero digit followed by digits. *)
Definition int_part (s : list ascii) : option (Z * list ascii) :=
  match s with
  | c :: r =>
      match digit c with
      | Some 0 => Some (0, r)
      | Some d => let '(v, _, r') := digits r d 1 in Some (v, r')
      | None => None
      end
  | [] => None
  end.

(** [frac]: nothing, or a point and at least one digit. *)
Definition frac_part (s : list ascii) : option (Z * Z * list ascii) :=
  match s with
  | c :: r =>
      if ch c 46 then
        let '(v, k, r') := digits r 0 0 in
        if k =? 0 then None else Some (v, k, r')
      else Some (0, 0, s)
  | [] => Some (0, 0, [])
  end.

(** An optional [-] in front of a number. *)
Definition minus (s : list ascii) : bool * list ascii :=
  match s with
  | c :: r => if ch c 45 then (true, r) else (false, s)
  | [] => (false, s)
  end.

(** An optional [-] or [+] in front of an exponent. *)
Definition exp_sign (s : list ascii) : bool * list ascii :=
  match s with
  | c :: r =>
      if ch c 45 then (true, r)
      else if ch c 43 then (false, r) else (false, s)
  | [] => (false, s)
  end.

(** [exp]: nothing, or [e]/[E], an optional sign and at least one
    digit. *)
Definition exp_part (s : list ascii) : option (Z * list ascii) :=
  match s with
  | c :: r =>
      if ch c 101 || ch c 69 then
        let '(neg, r1) := exp_sign r in
        let '(v, k, r2) := digits r1 0 0 in
        if k =? 0 then None else Some (if neg then - v else v, r2)
      else Some (0, s)
  | [] => Some (0, [])
  end.

Definition number (s : list ascii) : option (JsVal * list ascii) :=
  let '(neg, s1) := minus s in
  match int_part s1 with
  | None => None
  | Some (i, s2) =>
      match frac_part s2 with
      | None => None
      | Some (f, k, s3) =>
          match exp_part s3 with
          | None => None
          | Some (x, s4) =>
              let m := i * 10 ^ k + f in
              Some (JNum (if neg then - m else m) (x - k), s4)
          end
      end
  end.

(** The UTF-8 bytes of a code point. *)
Definition utf8 (cp : Z) : list ascii :=
  if cp <? 0x80 then [chr cp]
  else if cp <? 0x800 then [chr (0xC0 + cp / 64); chr (0x80 + cp mod 64)]
  else if cp <? 0x10000 then
    [chr (0xE0 + cp / 4096); chr (0x80 + (cp / 64) mod 64);
     chr (0x80 + cp mod 64)]
  else
    [chr (0xF0 + cp / 262144); chr (0x80 + (cp / 4096) mod 64);
     chr (0x80 + (cp / 64) mod 64); chr (0x80 + cp mod 64)].

Definition hex4 (a b c d : ascii) : option Z :=
  match hexval a, hexval b, hexval c, hexval d with
  | Some a, Some b, Some c, Some d => Some (((a * 16 + b) * 16 + c) * 16 + d)
  | _, _, _, _ => None
  end.

(** The code point of a high surrogate [hi] and the escape
    [\u l1 l2 l3 l4] that follows it, when that is a low surrogate. *)
Definition surrogate_pair (hi : Z) (b u l1 l2 l3 l4 : ascii) : option Z :=
  if ch b 92 && ch u 117 then
    match hex4 l1 l2 l3 l4 with
    | Some lo =>
        if (0xDC00 <=? lo) && (lo <=? 0xDFFF)
        then Some (0x10000 + (hi - 0xD800) * 1024 + (lo - 0xDC00))
        else None
    | None => None
    end
  else None.

(** The characters of a string literal after its opening quote, up to
    the closing one.  [acc] holds what was read, latest first. *)
Fixpoint string_body (s : list ascii) (acc : list ascii)
  : option (string * list ascii) :=
  match s with
  | [] => None
  | c :: r =>
      if ch c 34 then Some (string_of_list_ascii (rev acc), r)
      else if ch c 92 then
        match r with
        | [] => None
        | e :: r1 =>
            if ch e 34 || ch e 92 || ch e 47 then string_body r1 (e :: acc)
            else if ch e 98 then string_body r1 (chr 8 :: acc)
            else if ch e 102 then string_body r1 (chr 12 :: acc)
            else if ch e 110 then string_body r1 (chr 10 :: acc)
            else if ch e 114 then string_body r1 (chr 13 :: acc)
            else if ch e 116 then string_body r1 (chr 9 :: acc)
            else if ch e 117 then
              match r1 with
              | h1 :: h2 :: h3 :: h4 :: r2 =>
                  match hex4 h1 h2 h3 h4 with
                  | None => None
                  | Some cu =>
                      if (0xD800 <=? cu) && (cu <=? 0xDBFF) then
                        match r2 with
                        | b :: u :: l1 :: l2 :: l3 :: l4 :: r3 =>
                            match surrogate_pair cu b u l1 l2 l3 l4 with
                            | Some cp =>
                                string_body r3 (rev (utf8 cp) ++ acc)
                            | None => string_body r2 (rev (utf8 cu) ++ acc)
                            end
                        | _ => string_body r2 (rev (utf8 cu) ++ acc)
                        end
                      else string_body r2 (rev (utf8 cu) ++ acc)
                  end
              | _ => None
              end
            else None
        end
      else if code c <? 32 then None
      else string_body r (c :: acc)
  end.

Fixpoint strip (p s : list ascii) : option (list ascii) :=
  match p, s with
  | [], _ => Some s
  | a :: p, b :: s => if Ascii.eqb a b then strip p s else None
  | _ :: _, [] => None
  end.

Definition literal (name : string) (v : JsVal) (s : list ascii)
  : option (JsVal * list ascii) :=
  match strip (list_ascii_of_string name) s with
  | Some r => Some (v, r)
  | None => None
  end.

(** One value, after optional white space.  [n] bounds the nesting and
    the number of members read; [parse] gives enough. *)
Fixpoint value (n : nat) (s : list ascii) : option (JsVal * list ascii) :=
  match n with
  | O => None
  | S n =>
      match skip_ws s with
      | [] => None
      | c :: r =>
          if ch c 123 then
            match skip_ws r with
            | d :: r' => if ch d 125 then Some (JObj [], r')
                         else members n r []
            | [] => None
            end
          else if ch c 91 then
            match skip_ws r with
            | d :: r' => if ch d 93 then Some (JArr [], r')
                         else elements n r []
            | [] => None
            end
          else if ch c 34 then
            match string_body r [] with
            | Some (t, r') => Some (JStr t, r')
            | None => None
            end
          else if ch c 116 then literal "true" (JBool true) (c :: r)
          else if ch c 102 then literal "false" (JBool false) (c :: r)
          else if ch c 110 then literal "null" JNull (c :: r)
          else number (c :: r)
      end
  end
with elements (n : nat) (s : list ascii) (acc : list JsVal)
  : option (JsVal * list ascii) :=
  match n with
  | O => None
  | S n =>
      match value n s with
      | None => None
      | Some (v, r) =>
          match skip_ws r with
          | c :: r' =>
              if ch c 44 then elements n r' (v :: acc)
              else if ch c 93 then Some (JArr (rev (v :: acc)), r')
              else None
          | [] => None
          end
      end
  end
with members (n : nat) (s : list ascii) (acc : list (string * JsVal))
  : option (JsVal * list ascii) :=
  match n with
  | O => None
  | S n =>
      match skip_ws s with
      | q :: r =>
          if ch q 34 then
            match string_body r [] with
            | None => None
            | Some (k, r1) =>
                match skip_ws r1 with
                | c :: r2 =>
                    if ch c 58 then
                      match value n r2 with
                      | None => None
                      | Some (v, r3) =>
                          match skip_ws r3 with
                          | d :: r4 =>
                              if ch d 44 then members n r4 ((k, v) :: acc)
                              else if ch d 125
                              then Some (JObj (rev ((k, v) :: acc)), r4)
                              else None
                          | [] => None
                          end
                      end
                    else None
                | [] => None
                end
            end
          else None
      | [] => None
      end
  end.

(** [JSON.parse(text)]: [None] stands for the [SyntaxError]. *)
Definition parse (text : string) : option JsVal :=
  let cs := list_ascii_of_string text in
  match value (2 * length cs + 2) cs with
  | Some (v, r) =>
      match skip_ws r with
      | [] => Some v
      | _ :: _ => None
      end
  | None => None
  end.

End JSON.

(** ** The record store

    LeanCloud objects are an identifier and a bag of attributes.  The
    [Order] class is a sequence of records, searched by attribute; the
    [_User] class maps an object identifier to the user's attributes. *)

Module AV.

Record Object := { id : string; attributes : gmap string JsVal }.

(** [obj.get(k)] *)
Definition get (o : Object) (k : string) : JsVal :=
  default JUndefined (attributes o !! k).

(** [obj.set(k, v)], as [save] persists it: an [undefined] value is
    not stored, the record keeps what it held. *)
Definition set (o : Object) (k : string) (v : JsVal) : Object :=
  match v with
  | JUndefined => o
  | _ => {| id := id o; attributes := <[k := v]> (attributes o) |}
  end.

Record Store := {
  orders : list Object;
  users : gmap string (gmap string JsVal)
}.

(** The constraint [query.equalTo(k, v)].  Merchant order numbers are
    strings ([createOrder] builds them); any other value selects no
    record. *)
Definition equalTo (k : string) (v : scalar) (o : Object) : bool :=
  match v, get o k with
  | SStr a, JStr b => String.eqb a b
  | _, _ => false
  end.

(** [query.first()]: the first record that meets the constraint, with
    its place in the class. *)
Fixpoint first_from (i : nat) (os : list Object) (p : Object -> bool)
  : option (nat * Object) :=
  match os with
  | [] => None
  | o :: r => if p o then Some (i, o) else first_from (S i) r p
  end.

Definition first (st : Store) (p : Object -> bool) : option (nat * Object) :=
  first_from 0 (orders st) p.

(** [order.save()] of a record fetched from place [i]. *)
Definition save_order (i : nat) (o : Object) (st : Store) : Store :=
  {| orders := <[i := o]> (orders st); users := users st |}.

(** [userQuery.get(objectId)]: the user stored under the identifier.
    [None] stands for the rejection of the call: no user is stored
    under it, or it is no string. *)
Definition get_user (st : Store) (objectId : JsVal) : option Object :=
  match objectId with
  | JStr uid =>
      match users st !! uid with
      | Some a => Some {| id := uid; attributes := a |}
      | None => None
      end
  | _ => None
  end.

(** [user.save()] *)
Definition save_user (u : Object) (st : Store) : Store :=
  {| orders := orders st; users := <[id u := attributes u]> (users st) |}.

End AV.

(** ** The webhook handler *)

(** The fields the handler takes out of [req.body]. *)
Record Body := {
  out_trade_no : scalar;
  transaction_id : scalar;
  total_fee : scalar;
  attach : scalar;
  sign : scalar
}.

(** The object literal [{ out_trade_no, transaction_id, total_fee }]. *)
Definition signed_fields (body : Body) : object :=
  [("out_trade_no", out_trade_no body);
   ("transaction_id", transaction_id body);
   ("total_fee", total_fee body)].

(** How the [try] block ends: a response was sent, or an exception
    reached the [catch]. *)
Inductive completion :=
  | Sent (token : string)
  | Thrown.

(** [sign !== calcSign] *)
Definition sign_differs (sign : scalar) (calcSign : string) : bool :=
  match sign with
  | SStr s => negb (String.eqb s calcSign)
  | _ => true
  end.

(** [const { userId, productType } = attachData]; destructuring [null]
    throws. *)
Definition destructure (attachData : JsVal) : option (JsVal * JsVal) :=
  match attachData with
  | JUndefined | JNull => None
  | JObj fs => Some (field fs "userId", field fs "productType")
  | _ => Some (JUndefined, JUndefined)
  end.

(** [v === s] for a string literal [s]. *)
Definition is_str (v : JsVal) (s : string) : bool :=
  match v with
  | JStr t => String.eqb t s
  | _ => false
  end.

(** [const orderIds = user.get('vipOrderIds') || []; orderIds.push(id)]:
    only an array has [push]. *)
Definition push_order_id (current : JsVal) (order_id : string)
  : option (list JsVal) :=
  if falsy current then Some [JStr order_id]
  else match current with
       | JArr l => Some (l ++ [JStr order_id])
       | _ => None
       end.

Section Handler.

(** The shared secret, read from the environment at load time. *)
Variable YUNGOU_API_KEY : string.

(** The instants the two [new Date()] of one run read. *)
Variables (paid_now grant_now : Z).

(** Step 5: the user's attributes after the writes before [push]. *)
Definition grant_fields (user : AV.Object) (productType : JsVal) : AV.Object :=
  let user := AV.set user "vipType" productType in
  let user := AV.set user "vipPurchaseTime" (JDate grant_now) in
  if is_str productType "lifetime"
  then AV.set user "vipExpireTime" JNull
  else user.

(** Step 5.  [await userQuery.get(userId)] throws when the look-up
    rejects, so the [else] of [if (user)] is never reached; [push]
    throws on a value that is no array. *)
Definition grant_vip (order : AV.Object) (userId productType : JsVal)
    (st : AV.Store) : completion * AV.Store :=
  match AV.get_user st userId with
  | Some user =>
      let user := grant_fields user productType in
      match push_order_id (AV.get user "vipOrderIds") (AV.id order) with
      | None => (Thrown, st)
      | Some orderIds =>
          let user := AV.set user "vipOrderIds" (JArr orderIds) in
          (Sent "SUCCESS", AV.save_user user st)
      end
  | None => (Thrown, st)
  end.

(** The body of the [try] block. *)
Definition run (body : Body) (st : AV.Store) : completion * AV.Store :=
  let calcSign := calculateSign (signed_fields body) YUNGOU_API_KEY in
  if sign_differs (sign body) calcSign then (Sent "FAIL", st)
  else
    match JSON.parse (ToString (attach body)) with
    | None => (Sent "FAIL", st)
    | Some attachData =>
        match destructure attachData with
        | None => (Thrown, st)
        | Some (userId, productType) =>
            match AV.first st (AV.equalTo "outTradeNo" (out_trade_no body)) with
            | None => (Sent "FAIL", st)
            | Some (i, order) =>
                let currentStatus := AV.get order "status" in
                if is_str currentStatus "paid" then (Sent "SUCCESS", st)
                else if is_str currentStatus "pending" then
                  let order := AV.set order "status" (JStr "paid") in
                  let order :=
                    AV.set order "transactionId"
                      (of_scalar (transaction_id body)) in
                  let order := AV.set order "paidAt" (JDate paid_now) in
                  grant_vip order userId productType
                    (AV.save_order i order st)
                else (Sent "SUCCESS", st)
            end
        end
    end.

(** [handlePaymentCallback(req, res)]: the text sent as the response
    and the store afterwards. *)
Definition handlePaymentCallback (body : Body) (st : AV.Store)
  : string * AV.Store :=
  match run body st with
  | (Sent token, st') => (token, st')
  | (Thrown, st') => ("FAIL", st')
  end.

End Handler.

(** ** Vocabulary of the statements *)

(** The callback carries the signature of its own three fields. *)
Definition correctly_signed (key : string) (body : Body) : Prop :=
  sign body = SStr (calculateSign (signed_fields body) key).

(** The attachment parses and destructures into [userId] and
    [productType]. *)
Definition decodes (body : Body) (userId productType : JsVal) : Prop :=
  exists attachData,
    JSON.parse (ToString (attach body)) = Some attachData /\
    destructure attachData = Some (userId, productType).

(** The look-up by merchant order number answers [order], held at place
    [i] of the class. *)
Definition finds (st : AV.Store) (body : Body) (i : nat) (order : AV.Object)
  : Prop :=
  AV.first st (AV.equalTo "outTradeNo" (out_trade_no body)) = Some (i, order).

(** The order identifiers a user record holds: an array, or nothing
    yet. *)
Definition stored_ids (v : JsVal) : option (list JsVal) :=
  match v with
  | JArr l => Some l
  | JUndefined | JNull => Some []
  | _ => None
  end.

(** An order record after the writes of the transition: [status],
    [transactionId] when the callback carries one, [paidAt]. *)
Definition paid_order (order : AV.Object) (transaction_id : scalar) (now : Z)
  : AV.Object :=
  let a := <["status" := JStr "paid"]> (AV.attributes order) in
  let a :=
    match of_scalar transaction_id with
    | JUndefined => a
    | v => <["transactionId" := v]> a
    end in
  {| AV.id := AV.id order; AV.attributes := <["paidAt" := JDate now]> a |}.

(** A record holds a value under [k]: [o.get(k) !== undefined]. *)
Definition is_set (o : AV.Object) (k : string) : Prop :=
  AV.get o k <> JUndefined.

(** [paidAt] is set exactly on a paid order, [transactionId] on a paid
    order only. *)
Definition paid_fields_sound (o : AV.Object) : Prop :=
  (is_set o "paidAt" <-> AV.get o "status" = JStr "paid") /\
  (is_set o "transactionId" -> AV.get o "status" = JStr "paid").

(** [transactionId] and [paidAt] are set exactly on a paid order. *)
Definition paid_fields_consistent (o : AV.Object) : Prop :=
  (is_set o "transactionId" <-> AV.get o "status" = JStr "paid") /\
  (is_set o "paidAt" <-> AV.get o "status" = JStr "paid").

(** The callback carries a transaction identifier. *)
Definition has_transaction_id (body : Body) : Prop :=
  of_scalar (transaction_id body) <> JUndefined.

(** One delivery of the webhook: the body and the two clock readings. *)
Record Delivery := {
  d_body : Body;
  d_paid_now : Z;
  d_grant_now : Z
}.

Definition deliver (key : string) (st : AV.Store) (d : Delivery) : AV.Store :=
  snd (handlePaymentCallback key (d_paid_now d) (d_grant_now d) (d_body d) st).

Definition deliver_all (key : string) (ds : list Delivery) (st : AV.Store)
  : AV.Store :=
  fold_left (deliver key) ds st.

(** ** A concrete scenario

    The order of user [u1] for the lifetime product, and the callback
    the provider sends for it. *)

Module Scenario.

Definition key : string := "secret".

Definition order (status : string) : AV.Object :=
  {| AV.id := "o1";
     AV.attributes :=
       <["outTradeNo" := JStr "VIP_u1_1"]>
         (<["status" := JStr status]>
            (<["productType" := JStr "lifetime"]>
               (<["amount" := JNum 6900 0]> ∅))) |}.

Definition user : gmap string JsVal :=
  <["username" := JStr "alice"]> ∅.

Definition store (status : string) : AV.Store :=
  {| AV.orders := [order status]; AV.users := <["u1" := user]> ∅ |}.

Definition store_without_user (status : string) : AV.Store :=
  {| AV.orders := [order status]; AV.users := ∅ |}.

Definition callback (attachment : string) : Body :=
  {| out_trade_no := SStr "VIP_u1_1";
     transaction_id := SStr "tx1";
     total_fee := SStr "6900";
     attach := SStr attachment;
     sign := SStr "806020DB2C0961EF584575BC1F7CE17B" |}.

(** A member [name: text] of a JSON object, both in double quotes. *)
Definition member (name text : string) : string :=
  let q := String (ascii_of_N 34) EmptyString in
  q +:+ name +:+ q +:+ ":" +:+ q +:+ text +:+ q.

(** The attachment [createOrder] sends along: user and product. *)
Definition attachment : string :=
  "{" +:+ member "userId" "u1" +:+ "," +:+
  member "productType" "lifetime" +:+ "}".

(** An attachment that names the product but no user. *)
Definition attachment_without_user : string :=
  "{" +:+ member "productType" "lifetime" +:+ "}".

Definition body : Body := callback attachment.

(** The same callback without a [transaction_id], signed as such. *)
Definition body_without_transaction : Body :=
  {| out_trade_no := SStr "VIP_u1_1";
     transaction_id := SUndefined;
     total_fee := SStr "6900";
     attach := SStr attachment;
     sign := SStr "C7A5A9E193CFAE1D53EAD0F5A20B2460" |}.

End Scenario.

(** * The code around the callback

    What [createOrder] hands to the payment provider and gets back
    through the callback (the attachment, the merchant order number),
    and [queryOrder], which reads what the callback wrote. *)

(** ** The alphabet of a signature *)

(** A digit or a letter [A]-[F]. *)
Definition is_upper_hex (c : ascii) : bool :=
  let n := N_of_ascii c in
  (((48 <=? n) && (n <=? 57)) || ((65 <=? n) && (n <=? 70)))%N.

(** ** The attachment [createOrder] sends

    [JSON.stringify({ userId: currentUser.id, productType: productType })]
    for two strings. *)

(** [QuoteJSONString], character by character: the quote and the
    backslash are escaped, the control characters written as [\b], [\t],
    [\n], [\f], [\r] or [\u00xx], everything else is copied. *)
Definition quote_char (c : ascii) : list ascii :=
  let n := JSON.code c in
  let bs := JSON.chr 92 in
  if (n =? 34) || (n =? 92) then [bs; c]
  else if n =? 8 then [bs; JSON.chr 98]
  else if n =? 9 then [bs; JSON.chr 116]
  else if n =? 10 then [bs; JSON.chr 110]
  else if n =? 12 then [bs; JSON.chr 102]
  else if n =? 13 then [bs; JSON.chr 114]
  else if n <? 32 then
    [bs; JSON.chr 117; JSON.chr 48; JSON.chr 48;
     hex_digit (n / 16); hex_digit (n mod 16)]
  else [c].

Definition quote (s : string) : list ascii :=
  JSON.chr 34 :: flat_map quote_char (list_ascii_of_string s) ++ [JSON.chr 34].

Definition stringify_attach (userId productType : string) : string :=
  string_of_list_ascii
    (JSON.chr 123 ::
     quote "userId" ++ JSON.chr 58 :: quote userId ++
     JSON.chr 44 ::
     quote "productType" ++ JSON.chr 58 :: quote productType ++
     [JSON.chr 125]).

(** ** The merchant order number of [createOrder]

    [`VIP_${currentUser.id}_${Date.now()}`] *)
Definition outTradeNo_of (user_id : string) (now : Z) : string :=
  "VIP_" +:+ user_id +:+ "_" +:+ pretty now.

(** [Date.prototype.toISOString] of a valid date, from its epoch
    milliseconds (proleptic Gregorian calendar, UTC). *)
Definition zero_pad (width : nat) (n : Z) : string :=
  let s := pretty n in
  String.concat EmptyString (repeat "0" (width - String.length s)) +:+ s.

Definition civil_from_days (days : Z) : Z * Z * Z :=
  let z := days + 719468 in
  let era := z / 146097 in
  let doe := z - era * 146097 in
  let yoe := (doe - doe / 1460 + doe / 36524 - doe / 146096) / 365 in
  let doy := doe - (365 * yoe + yoe / 4 - yoe / 100) in
  let mp := (5 * doy + 2) / 153 in
  let d := doy - (153 * mp + 2) / 5 + 1 in
  let m := if mp <? 10 then mp + 3 else mp - 9 in
  let y := yoe + era * 400 + (if m <=? 2 then 1 else 0) in
  (y, m, d).

Definition toISOString (t : Z) : string :=
  let '(y, m, d) := civil_from_days (t / 86400000) in
  let ms := t mod 86400000 in
  let year :=
    if (0 <=? y) && (y <=? 9999) then zero_pad 4 y
    else (if y <? 0 then "-" else "+") +:+ zero_pad 6 (Z.abs y) in
  year +:+ "-" +:+ zero_pad 2 m +:+ "-" +:+ zero_pad 2 d +:+ "T" +:+
  zero_pad 2 (ms / 3600000) +:+ ":" +:+ zero_pad 2 ((ms / 60000) mod 60) +:+ ":" +:+
  zero_pad 2 ((ms / 1000) mod 60) +:+ "." +:+ zero_pad 3 (ms mod 1000) +:+ "Z".

(** ** [queryOrder]

    The cloud function answers with the order's view or throws an
    [AV.Cloud.Error].  An order refers to its buyer through [userId],
    held here as the buyer's object identifier. *)

Inductive CloudError := Error (code : option Z) (message : string).

Record OrderView := {
  view_status : JsVal;
  view_productType : JsVal;
  view_amount : JsVal;
  view_paidAt : JsVal
}.

(** [query.equalTo('objectId', orderId)] and
    [query.equalTo('userId', currentUser)] together. *)
Definition order_of (orderId : JsVal) (user_id : string) (o : AV.Object) : bool :=
  is_str orderId (AV.id o) && AV.equalTo "userId" (SStr user_id) o.

Section QueryOrder.

(** The texts of the engine's errors: the [TypeError] for calling
    [toISOString] on a value that has none, and the [RangeError] for a
    date out of range. *)
Variables (not_a_function invalid_time : string).

(** [order.get('paidAt')?.toISOString() || null], or the message of the
    error thrown. *)
Definition paidAt_text (paidAt : JsVal) : JsVal + string :=
  match paidAt with
  | JUndefined | JNull => inl JNull
  | JDate t =>
      if Z.abs t <=? 8640000000000000 then
        match toISOString t with
        | EmptyString => inl JNull
        | s => inl (JStr s)
        end
      else inr invalid_time
  | _ => inr not_a_function
  end.

Definition queryOrder (orderId : JsVal) (currentUser : option string)
    (st : AV.Store) : OrderView + CloudError :=
  match currentUser with
  | None => inr (Error (Some 401) "请先登录")
  | Some user_id =>
      if falsy orderId then inr (Error None "订单ID不能为空")
      else
        match AV.first st (order_of orderId user_id) with
        | None => inr (Error None "订单不存在")
        | Some (_, order) =>
            match paidAt_text (AV.get order "paidAt") with
            | inr message => inr (Error None ("查询订单失败：" +:+ message))
            | inl paidAt =>
                inl {| view_status := AV.get order "status";
                       view_productType := AV.get order "productType";
                       view_amount := AV.get order "amount";
                       view_paidAt := paidAt |}
            end
        end
  end.

End QueryOrder.


(** The scenario's order with its buyer, as [createOrder] records it. *)
Definition bought_order (status : string) : AV.Object :=
  AV.set (Scenario.order status) "userId" (JStr "u1").

Definition bought_store (status : string) : AV.Store :=
  {| AV.orders := [bought_order status]; AV.users := AV.users (Scenario.store status) |}.

(** * Properties *)

#[local] Arguments String.eqb : simpl never.
#[local] Arguments String.leb : simpl never.

(** ** Test vectors *)

Example md5_empty : md5_hex EmptyString = "d41d8cd98f00b204e9800998ecf8427e".
Proof. vm_compute. reflexivity. Qed.

Example md5_abc : md5_hex "abc" = "900150983cd24fb0d6963f7d28e17f72".
Proof. vm_compute. reflexivity. Qed.

Example md5_two_blocks :
  toUpperCase
    (md5_hex "out_trade_no=VIP_u1_1&total_fee=6900&transaction_id=tx1&key=secret")
  = "806020DB2C0961EF584575BC1F7CE17B".
Proof. vm_compute. reflexivity. Qed.

Example sign_demo :
  calculateSign
    [("transaction_id", SStr "tx1"); ("out_trade_no", SStr "VIP_u1_1");
     ("sign", SStr "zzz"); ("empty", SStr EmptyString); ("total_fee", SNum (SafeInt 6900 eq_refl))]
    "secret"
  = "806020DB2C0961EF584575BC1F7CE17B".
Proof. vm_compute. reflexivity. Qed.

Example parse_attach :
  JSON.parse Scenario.attachment
  = Some (JObj [("userId", JStr "u1"); ("productType", JStr "lifetime")]).
Proof. vm_compute. reflexivity. Qed.

(** ** The order on keys and sorting *)

Lemma string_leb_trans a b c :
  String.leb a b = true -> String.leb b c = true -> String.leb a c = true.
Proof.
  unfold String.leb. revert b c.
  induction a as [|x a IH]; intros [|y b] [|z c]; simpl; try congruence.
  destruct (Ascii.compare x y) eqn:Hxy; try congruence.
  - apply Ascii.compare_eq_iff in Hxy as ->.
    destruct (Ascii.compare y z) eqn:Hyz; try congruence. apply IH.
  - destruct (Ascii.compare y z) eqn:Hyz; try congruence.
    + apply Ascii.compare_eq_iff in Hyz as <-. now rewrite Hxy.
    + assert (Hxz : Ascii.compare x z = Lt).
      { unfold Ascii.compare in *. rewrite N.compare_lt_iff in *. lia. }
      now rewrite Hxz.
Qed.

Lemma unit_rank_inj a b : unit_rank a = unit_rank b -> a = b.
Proof.
  intros H.
  rewrite <- (ascii_N_embedding a), <- (ascii_N_embedding b). f_equal.
  pose proof (N_ascii_bounded a). pose proof (N_ascii_bounded b).
  unfold unit_rank in H.
  destruct (N.eqb_spec (N_of_ascii a) 238), (N.eqb_spec (N_of_ascii a) 239),
    (N.eqb_spec (N_of_ascii b) 238), (N.eqb_spec (N_of_ascii b) 239);
    simpl in H; lia.
Qed.

Lemma key_compare_eq a b : key_compare a b = Eq -> a = b.
Proof.
  revert b. induction a as [|x a IH]; intros [|y b]; simpl; try congruence.
  destruct (N.compare_spec (unit_rank x) (unit_rank y)) as [He|Hl|Hg];
    try discriminate.
  intros H. apply unit_rank_inj in He as ->. now rewrite (IH b H).
Qed.

Lemma key_compare_antisym a b : key_compare b a = CompOpp (key_compare a b).
Proof.
  revert b. induction a as [|x a IH]; intros [|y b]; simpl; try reflexivity.
  rewrite (N.compare_antisym (unit_rank x) (unit_rank y)).
  destruct (unit_rank x ?= unit_rank y)%N; simpl; auto.
Qed.

(** [key_le] is the lexicographic order on the ranks of the characters. *)
Lemma key_le_String a s b t :
  key_le (String a s) (String b t)
  <-> (unit_rank a < unit_rank b)%N \/ (a = b /\ key_le s t).
Proof.
  unfold key_le, key_leb. simpl.
  destruct (N.compare_spec (unit_rank a) (unit_rank b)) as [He|Hl|Hg].
  - apply unit_rank_inj in He as ->.
    split; [auto|]. intros [H|[_ H]]; [lia|exact H].
  - split; auto.
  - split; [discriminate|]. intros [H|[-> _]]; lia.
Qed.

Lemma key_le_EmptyString s : key_le EmptyString s.
Proof. now destruct s. Qed.

#[global] Instance key_le_total : Total key_le.
Proof.
  intros a b. unfold key_le, key_leb. rewrite (key_compare_antisym a b).
  destruct (key_compare a b); simpl; auto.
Qed.

#[global] Instance key_le_transitive : Transitive key_le.
Proof.
  intros a. induction a as [|x a IH]; intros [|y b] [|z c];
    try (intros; apply key_le_EmptyString); try discriminate.
  rewrite !key_le_String. intros [Hxy|[-> Hab]] [Hyz|[-> Hbc]].
  - left. lia.
  - now left.
  - now left.
  - right. split; [reflexivity|]. now apply (IH b).
Qed.

#[global] Instance key_le_antisymm : AntiSymm (=) key_le.
Proof.
  intros a b. unfold key_le, key_leb. rewrite (key_compare_antisym a b).
  destruct (key_compare a b) eqn:H; simpl; try discriminate.
  intros _ _. now apply key_compare_eq.
Qed.

(** On ASCII text it is the order of the character codes. *)
Lemma key_leb_ascii a b :
  ascii_only a = true -> ascii_only b = true -> key_leb a b = String.leb a b.
Proof.
  unfold key_leb, String.leb, ascii_only. revert b.
  induction a as [|x a IH]; intros [|y b]; simpl; try reflexivity.
  rewrite !andb_true_iff, !N.ltb_lt. intros [Hx Ha] [Hy Hb].
  specialize (IH b Ha Hb). unfold Ascii.compare, unit_rank.
  destruct (N.eqb_spec (N_of_ascii x) 238), (N.eqb_spec (N_of_ascii x) 239),
    (N.eqb_spec (N_of_ascii y) 238), (N.eqb_spec (N_of_ascii y) 239);
    try lia.
  simpl. destruct (N_of_ascii x ?= N_of_ascii y)%N; auto.
Qed.

(** Beyond the Basic Multilingual Plane the two orders part: U+1F600
    is sorted before U+FF5E, whose bytes are the smaller ones. *)
Example key_le_code_units :
  sort [key_UFF5E; "b"; key_U1F600; "a"] = ["a"; "b"; key_U1F600; key_UFF5E]
  /\ sort_bytes [key_UFF5E; "b"; key_U1F600; "a"]
     = ["a"; "b"; key_UFF5E; key_U1F600].
Proof. vm_compute. split; reflexivity. Qed.

#[global] Instance byte_le_total : Total byte_le.
Proof. intros a b. apply String.leb_total. Qed.

#[global] Instance byte_le_transitive : Transitive byte_le.
Proof. intros a b c. apply string_leb_trans. Qed.

#[global] Instance byte_le_antisymm : AntiSymm (=) byte_le.
Proof. intros a b. apply String.leb_antisym. Qed.

Lemma StronglySorted_impl {A} (R R' : A -> A -> Prop) l :
  (forall x y, In x l -> In y l -> R x y -> R' x y) ->
  StronglySorted R l -> StronglySorted R' l.
Proof.
  intros HR H. induction H as [|x l Hl IH Hx]; constructor.
  - apply IH. intros a b Ha Hb. apply HR; now right.
  - rewrite Forall_forall in *. intros y Hy. pose proof Hy as Hy'.
    apply list_elem_of_In in Hy'. apply HR; [now left|now right|auto].
Qed.

(** On ASCII keys [sort] is the byte-wise sort. *)
Lemma sort_ascii l :
  forallb ascii_only l = true -> sort l = sort_bytes l.
Proof.
  intros Hl. rewrite forallb_forall in Hl.
  assert (Hp : sort l ≡ₚ l) by apply merge_sort_Permutation.
  apply (StronglySorted_unique byte_le).
  - apply (StronglySorted_impl key_le).
    + intros x y Hx Hy. unfold key_le, byte_le.
      rewrite key_leb_ascii; [auto| |];
        apply Hl; eapply Permutation_in; eauto.
    + apply StronglySorted_merge_sort; apply _.
  - apply StronglySorted_merge_sort; apply _.
  - rewrite Hp. symmetry. apply merge_sort_Permutation.
Qed.

Lemma sort_sorted l : StronglySorted key_le (sort l).
Proof. apply StronglySorted_merge_sort; apply _. Qed.

Lemma sort_perm l : sort l ≡ₚ l.
Proof. apply merge_sort_Permutation. Qed.

(** The sorted list depends on the elements only. *)
Lemma sort_Permutation l1 l2 : l1 ≡ₚ l2 -> sort l1 = sort l2.
Proof.
  intros H. apply (StronglySorted_unique key_le); auto using sort_sorted.
  now rewrite !sort_perm.
Qed.

Lemma StronglySorted_lfilter (f : string -> bool) l :
  StronglySorted key_le l -> StronglySorted key_le (List.filter f l).
Proof.
  induction 1 as [|x l Hl IH Hx]; simpl; [constructor|].
  destruct (f x); [constructor|]; auto.
  rewrite Forall_forall in *. intros y Hy.
  apply Hx. rewrite list_elem_of_In in *. now apply filter_In in Hy.
Qed.

Lemma Permutation_lfilter {A} (f : A -> bool) l1 l2 :
  l1 ≡ₚ l2 -> List.filter f l1 ≡ₚ List.filter f l2.
Proof.
  induction 1; simpl; repeat destruct (f _); eauto using Permutation.
Qed.

(** Filtering commutes with sorting. *)
Lemma filter_sort f l : List.filter f (sort l) = sort (List.filter f l).
Proof.
  apply (StronglySorted_unique key_le).
  - apply StronglySorted_lfilter, sort_sorted.
  - apply sort_sorted.
  - etransitivity; [apply Permutation_lfilter, sort_perm|].
    symmetry. apply sort_perm.
Qed.

(** ** Reading properties of a parameter object *)

Lemma prop_In (p : object) k v :
  NoDup (Object_keys p) -> In (k, v) p -> prop p k = v.
Proof.
  induction p as [|[k' v'] p IH]; simpl; [tauto|].
  intros Hnd [Heq|Hin].
  - injection Heq as -> ->. now rewrite String.eqb_refl.
  - apply NoDup_cons in Hnd as [Hk Hnd].
    destruct (String.eqb_spec k' k) as [->|]; [|auto].
    exfalso. apply Hk. apply list_elem_of_In.
    change k with (fst (k, v)). now apply in_map.
Qed.

Lemma prop_absent (p : object) k :
  ~ In k (Object_keys p) -> prop p k = SUndefined.
Proof.
  induction p as [|[k' v'] p IH]; simpl; [reflexivity|].
  intros H. destruct (String.eqb_spec k' k); [tauto|]. apply IH. tauto.
Qed.

Lemma prop_Permutation (p1 p2 : object) k :
  NoDup (Object_keys p1) -> p1 ≡ₚ p2 -> prop p1 k = prop p2 k.
Proof.
  intros Hnd Hp.
  assert (Hk : Object_keys p1 ≡ₚ Object_keys p2) by now apply Permutation_map.
  assert (Hnd2 : NoDup (Object_keys p2)) by now rewrite <- Hk.
  destruct (in_dec string_dec k (Object_keys p1)) as [Hin|Hout].
  - apply in_map_iff in Hin as [[k' v] [Hfst Hin]]. simpl in Hfst. subst k'.
    rewrite (prop_In p1 k v), (prop_In p2 k v); auto.
    now apply (Permutation_in _ Hp).
  - rewrite !prop_absent; auto.
    intros Hin. apply Hout. apply (Permutation_in _ (Permutation_sym Hk) Hin).
Qed.

Lemma prop_without_sign (p : object) k :
  k <> "sign" -> prop (without_sign p) k = prop p k.
Proof.
  intros Hk. induction p as [|[k' v'] p IH]; simpl; [reflexivity|].
  destruct (String.eqb_spec k' "sign") as [->|]; simpl.
  - destruct (String.eqb_spec "sign" k); [congruence|apply IH].
  - now rewrite IH.
Qed.

Lemma signed_key_without_sign (p : object) k :
  signed_key (without_sign p) k = signed_key p k.
Proof.
  unfold signed_key. destruct (String.eqb_spec k "sign"); simpl; [reflexivity|].
  now rewrite prop_without_sign.
Qed.

Lemma signed_key_not_sign (p : object) k :
  signed_key p k = true -> k <> "sign".
Proof.
  unfold signed_key. destruct (String.eqb_spec k "sign"); simpl; congruence.
Qed.

Lemma keys_without_sign (p : object) :
  Object_keys (without_sign p)
  = List.filter (fun k => negb (String.eqb k "sign")) (Object_keys p).
Proof.
  induction p as [|[k v] p IH]; simpl; [reflexivity|].
  destruct (String.eqb k "sign"); simpl; now rewrite IH.
Qed.

Lemma lfilter_lfilter {A} (f g : A -> bool) l :
  List.filter f (List.filter g l) = List.filter (fun x => g x && f x) l.
Proof.
  induction l as [|x l IH]; simpl; [reflexivity|].
  destruct (g x); simpl; [destruct (f x)|]; now rewrite IH.
Qed.

(** The [sign] entry never reaches the string that is hashed. *)
Lemma signStr_without_sign (p : object) : signStr (without_sign p) = signStr p.
Proof.
  unfold signStr. f_equal.
  rewrite keys_without_sign, <- filter_sort, lfilter_lfilter.
  rewrite (filter_ext _ (signed_key p)).
  - apply map_ext_in. intros k Hk. apply filter_In in Hk as [_ Hk].
    unfold pair_text. now rewrite prop_without_sign by eauto using signed_key_not_sign.
  - intros k. rewrite signed_key_without_sign.
    unfold signed_key. now destruct (String.eqb k "sign").
Qed.

Lemma calculateSign_without_sign (p : object) key :
  calculateSign (without_sign p) key = calculateSign p key.
Proof. unfold calculateSign, fullStr. now rewrite signStr_without_sign. Qed.

Lemma without_sign_app (l1 l2 : object) :
  without_sign (l1 ++ l2) = without_sign l1 ++ without_sign l2.
Proof. apply List.filter_app. Qed.

(** C9: [calculateSign] does not depend on the order in which the
    entries were inserted: two parameter objects holding the same
    key-to-value entries, listed in different orders, get the same
    signature under every secret. *)
Theorem calculateSign_insertion_order (p1 p2 : object) (key : string) :
  NoDup (Object_keys p1) ->
  p1 ≡ₚ p2 ->
  calculateSign p1 key = calculateSign p2 key.
Proof.
  intros Hnd Hp. unfold calculateSign, fullStr, signStr.
  rewrite (sort_Permutation (Object_keys p1) (Object_keys p2))
    by now apply Permutation_map.
  do 4 f_equal.
  rewrite (filter_ext (signed_key p1) (signed_key p2)).
  - apply map_ext. intros k. unfold pair_text.
    now rewrite (prop_Permutation p1 p2).
  - intros k. unfold signed_key. now rewrite (prop_Permutation p1 p2).
Qed.

Lemma calculateSign_insertion_order_witness :
  calculateSign
    [("out_trade_no", SStr "VIP_u1_1"); ("transaction_id", SStr "tx1");
     ("total_fee", SNum (SafeInt 6900 eq_refl))] "secret"
  = calculateSign
      [("total_fee", SNum (SafeInt 6900 eq_refl)); ("out_trade_no", SStr "VIP_u1_1");
       ("transaction_id", SStr "tx1")] "secret".
Proof.
  apply calculateSign_insertion_order.
  - repeat constructor; simpl; rewrite ?list_elem_of_In; simpl; intuition congruence.
  - apply Permutation_sym, (Permutation_cons_app [_; _] []). reflexivity.
Defined.

(** C10: a [sign] entry in the input does not change the result: the
    signature of a parameter object into which an entry under the key
    [sign] was put, anywhere and with any value, is the signature of
    the object without it. *)
Theorem calculateSign_ignores_sign (l1 l2 : object) (v : scalar) (key : string) :
  calculateSign (l1 ++ ("sign", v) :: l2) key = calculateSign (l1 ++ l2) key.
Proof.
  rewrite <- (calculateSign_without_sign (l1 ++ ("sign", v) :: l2)).
  rewrite <- (calculateSign_without_sign (l1 ++ l2)).
  now rewrite !without_sign_app.
Qed.

(** ** [calculateSign] against the specification's wording *)

Lemma lfilter_map_fst {A B} (f : A -> bool) (l : list (A * B)) :
  List.filter f (map fst l) = map fst (List.filter (fun kv => f (fst kv)) l).
Proof.
  induction l as [|[k v] l IH]; simpl; [reflexivity|].
  destruct (f k); simpl; now rewrite IH.
Qed.

(** On an object without a [sign] entry the filter of [calculateSign]
    keeps exactly the entries the specification keeps. *)
Lemma signed_keys_remaining (p : object) :
  NoDup (Object_keys p) ->
  ~ In "sign" (Object_keys p) ->
  List.filter (signed_key p) (Object_keys p)
  = Object_keys (List.filter (fun kv => negb (dropped (snd kv))) p).
Proof.
  intros Hnd Hsign. unfold Object_keys at 1. rewrite lfilter_map_fst.
  unfold Object_keys. f_equal. apply filter_ext_in.
  intros [k v] Hin. simpl. unfold signed_key.
  rewrite (prop_In p k v) by assumption.
  destruct (String.eqb_spec k "sign") as [->|_].
  - exfalso. apply Hsign. change "sign" with (fst ("sign", v)).
    now apply in_map.
  - now destruct v as [| | |?|[|? ?]].
Qed.

Lemma In_keys_remaining (p : object) k :
  In k (Object_keys (List.filter (fun kv => negb (dropped (snd kv))) p)) ->
  In k (Object_keys p).
Proof.
  unfold Object_keys. rewrite !in_map_iff.
  intros (kv & Hk & Hin). apply filter_In in Hin as [Hin _]. eauto.
Qed.

Lemma calculateSign_spec_no_sign (p : object) (secret : string) :
  NoDup (Object_keys p) ->
  ~ In "sign" (Object_keys p) ->
  forallb ascii_only (Object_keys p) = true ->
  calculateSign p secret = computeSignature_spec p secret.
Proof.
  intros Hnd Hsign Hascii.
  unfold calculateSign, computeSignature_spec, fullStr, canonical_spec, signStr.
  rewrite filter_sort, signed_keys_remaining by assumption.
  rewrite sort_ascii; [reflexivity|].
  rewrite forallb_forall in *. intros k Hk.
  now apply Hascii, In_keys_remaining.
Qed.

Lemma signed_key_entry (p : object) k v :
  NoDup (Object_keys p) ->
  In (k, v) p ->
  signed_key p k = negb (String.eqb k "sign") && negb (dropped v).
Proof.
  intros Hnd Hin. unfold signed_key. rewrite (prop_In p k v) by assumption.
  f_equal. now destruct v as [| | |?|[|? ?]].
Qed.

(** The pairs [calculateSign] joins are the kept entries, in key
    order. *)
Lemma signed_entries (p : object) :
  NoDup (Object_keys p) ->
  map (fun k => (k, prop p k))
    (List.filter (signed_key p) (sort (Object_keys p)))
  ≡ₚ List.filter
       (fun kv => negb (String.eqb (fst kv) "sign") && negb (dropped (snd kv)))
       p.
Proof.
  intros Hnd.
  etransitivity.
  { apply Permutation_map, Permutation_lfilter, sort_perm. }
  unfold Object_keys. rewrite lfilter_map_fst, map_map.
  rewrite (filter_ext_in
             (fun kv => signed_key p (fst kv))
             (fun kv => negb (String.eqb (fst kv) "sign")
                        && negb (dropped (snd kv)))).
  - rewrite <- (map_id (List.filter _ p)) at 2.
    apply Permutation_refl'. apply map_ext_in.
    intros [k v] Hin. apply filter_In in Hin as [Hin _]. simpl.
    now rewrite (prop_In p k v).
  - intros [k v] Hin. now apply signed_key_entry.
Qed.

Lemma lfilter_no_sign (p : object) (f : string * scalar -> bool) :
  ~ In "sign" (Object_keys p) ->
  List.filter (fun kv => negb (String.eqb (fst kv) "sign") && f kv) p
  = List.filter f p.
Proof.
  intros Hsign. apply filter_ext_in. intros [k v] Hin. simpl.
  destruct (String.eqb_spec k "sign") as [->|]; [|reflexivity].
  exfalso. apply Hsign. change "sign" with (fst ("sign", v)). now apply in_map.
Qed.

(** C4, as the code has it: on a parameter object without a signature
    field, [calculateSign] drops every entry whose value is the empty
    string, null or absent, sorts the remaining keys by their UTF-16
    code units, joins them as [key=value] with [&], appends
    [&key=<secret>], hashes with MD5 and returns the digest in
    upper-case hexadecimal.  When the keys are ASCII text that order is
    the byte-wise one, and the result is that of the procedure in the
    specification's words. *)
Theorem calculateSign_canonical (params : object) (secret : string) :
  NoDup (Object_keys params) ->
  ~ In "sign" (Object_keys params) ->
  (exists entries : list (string * scalar),
      entries ≡ₚ List.filter (fun kv => negb (dropped (snd kv))) params /\
      StronglySorted key_le (map fst entries) /\
      calculateSign params secret
      = toUpperCase
          (md5_hex
             (join "&"
                (map (fun kv => fst kv +:+ "=" +:+ ToString (snd kv)) entries)
              +:+ "&key=" +:+ secret))) /\
  (forallb ascii_only (Object_keys params) = true ->
   calculateSign params secret = computeSignature_spec params secret).
Proof.
  intros Hnd Hsign. split.
  - exists (map (fun k => (k, prop params k))
              (List.filter (signed_key params) (sort (Object_keys params)))).
    split; [|split].
    + rewrite <- (lfilter_no_sign params (fun kv => negb (dropped (snd kv))))
        by assumption.
      now apply signed_entries.
    + rewrite map_map. simpl. rewrite map_id.
      apply StronglySorted_lfilter, sort_sorted.
    + unfold calculateSign, fullStr, signStr. now rewrite map_map.
  - now apply calculateSign_spec_no_sign.
Qed.

Lemma calculateSign_canonical_witness :
  let params :=
    [("transaction_id", SStr "tx1"); ("empty", SStr EmptyString);
     ("out_trade_no", SStr "VIP_u1_1");
     ("total_fee", SNum (SafeInt 6900 eq_refl))] in
  (exists entries : list (string * scalar),
      entries ≡ₚ List.filter (fun kv => negb (dropped (snd kv))) params /\
      StronglySorted key_le (map fst entries) /\
      calculateSign params "secret"
      = toUpperCase
          (md5_hex
             (join "&"
                (map (fun kv => fst kv +:+ "=" +:+ ToString (snd kv)) entries)
              +:+ "&key=" +:+ "secret"))) /\
  (forallb ascii_only (Object_keys params) = true ->
   calculateSign params "secret" = computeSignature_spec params "secret").
Proof.
  intros params. apply calculateSign_canonical.
  - apply (bool_decide_unpack _). vm_compute. exact I.
  - apply (bool_decide_unpack _). vm_compute. exact I.
Defined.

(** C4 as worded fails on keys outside ASCII: with the keys U+FF5E and
    U+1F600, neither of them a signature field, the code hashes the
    pair under U+1F600 first, whose code units are the smaller; the
    byte-wise order of the specification puts U+FF5E first. *)
Lemma calculateSign_sorts_code_units :
  let params := [(key_UFF5E, SStr "2"); (key_U1F600, SStr "1")] in
  NoDup (Object_keys params) /\
  ~ In "sign" (Object_keys params) /\
  fullStr params "k"
  = key_U1F600 +:+ "=1&" +:+ key_UFF5E +:+ "=2&key=k" /\
  canonical_spec params "k"
  = key_UFF5E +:+ "=2&" +:+ key_U1F600 +:+ "=1&key=k" /\
  calculateSign params "k" <> computeSignature_spec params "k".
Proof.
  intros params. split; [|split; [|split; [|split]]].
  - apply (bool_decide_unpack _). vm_compute. exact I.
  - apply (bool_decide_unpack _). vm_compute. exact I.
  - vm_compute. reflexivity.
  - vm_compute. reflexivity.
  - vm_compute. discriminate.
Qed.

(** ** The scenario, run *)

Example scenario_paid :
  handlePaymentCallback Scenario.key 1000 1001 Scenario.body
    (Scenario.store "pending")
  = ("SUCCESS",
     {| AV.orders :=
          [AV.set (AV.set (AV.set (Scenario.order "pending")
                     "status" (JStr "paid"))
                     "transactionId" (JStr "tx1"))
                     "paidAt" (JDate 1000)];
        AV.users :=
          <["u1" :=
              <["vipOrderIds" := (JArr [JStr "o1"])]>
                (<["vipExpireTime" := JNull]>
                   (<["vipPurchaseTime" := JDate 1001]>
                      (<["vipType" := JStr "lifetime"]> Scenario.user)))]> ∅ |}).
Proof. vm_compute. reflexivity. Qed.

(** ** [JSON.parse] has fuel enough

    Every parser consumes input, and the fuel a parse needs is bounded
    by twice what it consumes. *)

Lemma skip_ws_length s : (length (JSON.skip_ws s) <= length s)%nat.
Proof.
  induction s as [|c s IH]; simpl; [lia|].
  destruct (JSON.is_ws c); simpl; lia.
Qed.

Lemma digits_length s acc k v k' r :
  JSON.digits s acc k = (v, k', r) -> (length r <= length s)%nat.
Proof.
  revert acc k. induction s as [|c s IH]; simpl; intros acc k.
  - intros [= <- <- <-]. simpl. lia.
  - destruct (JSON.digit c).
    + intros H. apply IH in H. lia.
    + intros [= <- <- <-]. simpl. lia.
Qed.

Lemma int_part_shorter s v r :
  JSON.int_part s = Some (v, r) -> (length r < length s)%nat.
Proof.
  destruct s as [|c s]; simpl; [discriminate|].
  destruct (JSON.digit c) as [d|]; [|discriminate].
  destruct (JSON.digits s d 1) as [[v' k'] r'] eqn:E.
  apply digits_length in E.
  destruct d; intros [= <- <-]; simpl; lia.
Qed.

Lemma frac_part_length s v k r :
  JSON.frac_part s = Some (v, k, r) -> (length r <= length s)%nat.
Proof.
  destruct s as [|c s]; simpl.
  - intros [= <- <- <-]. simpl. lia.
  - destruct (JSON.ch c 46).
    + destruct (JSON.digits s 0 0) as [[v' k'] r'] eqn:E.
      apply digits_length in E.
      destruct (k' =? 0); [discriminate|]. intros [= <- <- <-]. lia.
    + intros [= <- <- <-]. simpl. lia.
Qed.

Lemma minus_length s neg r :
  JSON.minus s = (neg, r) -> (length r <= length s)%nat.
Proof.
  destruct s as [|c s]; simpl; [intros [= <- <-]; simpl; lia|].
  destruct (JSON.ch c 45); intros [= <- <-]; simpl; lia.
Qed.

Lemma exp_sign_length s neg r :
  JSON.exp_sign s = (neg, r) -> (length r <= length s)%nat.
Proof.
  destruct s as [|c s]; simpl; [intros [= <- <-]; simpl; lia|].
  destruct (JSON.ch c 45); [intros [= <- <-]; simpl; lia|].
  destruct (JSON.ch c 43); intros [= <- <-]; simpl; lia.
Qed.

Lemma exp_part_length s v r :
  JSON.exp_part s = Some (v, r) -> (length r <= length s)%nat.
Proof.
  destruct s as [|c s]; simpl.
  - intros [= <- <-]. simpl. lia.
  - destruct (JSON.ch c 101 || JSON.ch c 69).
    + destruct (JSON.exp_sign s) as [neg r1] eqn:Es.
      apply exp_sign_length in Es.
      destruct (JSON.digits r1 0 0) as [[v' k'] r'] eqn:E.
      apply digits_length in E.
      destruct (k' =? 0); [discriminate|]. intros [= <- <-]. lia.
    + intros [= <- <-]. simpl. lia.
Qed.

Lemma number_shorter s v r :
  JSON.number s = Some (v, r) -> (length r < length s)%nat.
Proof.
  unfold JSON.number.
  destruct (JSON.minus s) as [neg s1] eqn:Es. apply minus_length in Es.
  destruct (JSON.int_part s1) as [[i s2]|] eqn:Ei; [|discriminate].
  apply int_part_shorter in Ei.
  destruct (JSON.frac_part s2) as [[[f k] s3]|] eqn:Ef; [|discriminate].
  apply frac_part_length in Ef.
  destruct (JSON.exp_part s3) as [[x s4]|] eqn:Ex; [|discriminate].
  apply exp_part_length in Ex.
  intros [= <- <-]. lia.
Qed.

Lemma string_body_shorter n s acc t r :
  (length s <= n)%nat ->
  JSON.string_body s acc = Some (t, r) -> (length r < length s)%nat.
Proof.
  revert s acc. induction n as [|n IH]; intros s acc Hn.
  - destruct s; simpl in *; [discriminate|lia].
  - destruct s as [|c s]; simpl; [discriminate|]. simpl in Hn.
    intros H.
    repeat match type of H with
    | context [if ?b then _ else _] => destruct b
    | context [match ?x with _ => _ end] => destruct x
    end;
    try discriminate;
    try (injection H as <- <-; simpl; lia);
    try (apply IH in H; simpl in *; lia).
Qed.

Lemma strip_length p s r :
  JSON.strip p s = Some r -> (length r + length p = length s)%nat.
Proof.
  revert s. induction p as [|a p IH]; intros [|b s]; simpl;
    try discriminate; try (intros [= <-]; simpl; lia).
  destruct (Ascii.eqb a b); [|discriminate]. intros H. apply IH in H. lia.
Qed.

Lemma literal_shorter name v s v' r :
  (0 < String.length name)%nat ->
  JSON.literal name v s = Some (v', r) -> (length r < length s)%nat.
Proof.
  unfold JSON.literal. intros Hn.
  destruct (JSON.strip _ s) as [r'|] eqn:E; [|discriminate].
  intros [= <- <-]. apply strip_length in E.
  assert (length (list_ascii_of_string name) = String.length name).
  { clear. induction name; simpl; congruence. }
  lia.
Qed.

Local Ltac unfold_parser := cbn [JSON.value JSON.elements JSON.members].
Local Tactic Notation "unfold_parser" "in" hyp(H) :=
  cbn [JSON.value JSON.elements JSON.members] in H.

Lemma fuel_enough m :
  (forall s v r,
      JSON.value m s = Some (v, r) ->
      (length r < length s)%nat /\
      forall n, (2 * (length s - length r) <= n + 1)%nat ->
                JSON.value n s = Some (v, r)) /\
  (forall s acc v r,
      JSON.elements m s acc = Some (v, r) ->
      (length r + 1 < length s)%nat /\
      forall n, (2 * (length s - length r) <= n + 2)%nat ->
                JSON.elements n s acc = Some (v, r)) /\
  (forall s acc v r,
      JSON.members m s acc = Some (v, r) ->
      (length r + 1 < length s)%nat /\
      forall n, (2 * (length s - length r) <= n + 2)%nat ->
                JSON.members n s acc = Some (v, r)).
Proof.
  induction m as [|m (IHv & IHe & IHm)].
  { repeat split; discriminate. }
  split; [|split].
  - intros s v r H. unfold_parser in H.
    pose proof (skip_ws_length s) as Hws.
    destruct (JSON.skip_ws s) as [|c r0] eqn:Ews; [discriminate|].
    simpl in Hws.
    destruct (JSON.ch c 123) eqn:E1.
    { pose proof (skip_ws_length r0) as Hws0.
      destruct (JSON.skip_ws r0) as [|d r'] eqn:Ews0; [discriminate|].
      simpl in Hws0.
      destruct (JSON.ch d 125) eqn:E2.
      - injection H as <- <-. split; [lia|].
        intros [|n] Hb; [lia|]. unfold_parser. now rewrite Ews, E1, Ews0, E2.
      - apply IHm in H as [Hl Hn]. split; [lia|].
        intros [|n] Hb; [lia|]. unfold_parser. rewrite Ews, E1, Ews0, E2.
        apply Hn. lia. }
    destruct (JSON.ch c 91) eqn:E3.
    { pose proof (skip_ws_length r0) as Hws0.
      destruct (JSON.skip_ws r0) as [|d r'] eqn:Ews0; [discriminate|].
      simpl in Hws0.
      destruct (JSON.ch d 93) eqn:E2.
      - injection H as <- <-. split; [lia|].
        intros [|n] Hb; [lia|]. unfold_parser.
        now rewrite Ews, E1, E3, Ews0, E2.
      - apply IHe in H as [Hl Hn]. split; [lia|].
        intros [|n] Hb; [lia|]. unfold_parser. rewrite Ews, E1, E3, Ews0, E2.
        apply Hn. lia. }
    assert (Hleaf :
      (length r < S (length r0))%nat ->
      (length r < length s)%nat /\
      forall n, (2 * (length s - length r) <= n + 1)%nat ->
                JSON.value n s = Some (v, r)).
    { intros Hl. split; [lia|]. intros [|n] Hb; [lia|]. unfold_parser.
      rewrite Ews, E1, E3. exact H. }
    apply Hleaf.
    destruct (JSON.ch c 34).
    { destruct (JSON.string_body r0 []) as [[t r']|] eqn:Es; [|discriminate].
      injection H as <- <-.
      apply (string_body_shorter (length r0)) in Es; lia. }
    destruct (JSON.ch c 116).
    { apply literal_shorter in H; simpl in *; lia. }
    destruct (JSON.ch c 102).
    { apply literal_shorter in H; simpl in *; lia. }
    destruct (JSON.ch c 110).
    { apply literal_shorter in H; simpl in *; lia. }
    apply number_shorter in H. simpl in H. lia.
  - intros s acc v r H. unfold_parser in H.
    destruct (JSON.value m s) as [[v1 r1]|] eqn:Ev; [|discriminate].
    apply IHv in Ev as [Hl1 Hn1].
    pose proof (skip_ws_length r1) as Hws.
    destruct (JSON.skip_ws r1) as [|c r'] eqn:Ews; [discriminate|].
    simpl in Hws.
    destruct (JSON.ch c 44) eqn:E1.
    + apply IHe in H as [Hl Hn]. split; [lia|].
      intros [|n] Hb; [lia|]. unfold_parser.
      rewrite (Hn1 n) by lia. rewrite Ews, E1. apply Hn. lia.
    + destruct (JSON.ch c 93) eqn:E2; [|discriminate].
      injection H as <- <-. split; [lia|].
      intros [|n] Hb; [lia|]. unfold_parser.
      rewrite (Hn1 n) by lia. now rewrite Ews, E1, E2.
  - intros s acc v r H. unfold_parser in H.
    pose proof (skip_ws_length s) as Hws.
    destruct (JSON.skip_ws s) as [|q r0] eqn:Ews; [discriminate|].
    simpl in Hws.
    destruct (JSON.ch q 34) eqn:E1; [|discriminate].
    destruct (JSON.string_body r0 []) as [[k r1]|] eqn:Es; [|discriminate].
    pose proof (string_body_shorter (length r0) _ _ _ _ (le_n _) Es) as Hs.
    pose proof (skip_ws_length r1) as Hws1.
    destruct (JSON.skip_ws r1) as [|c r2] eqn:Ews1; [discriminate|].
    simpl in Hws1.
    destruct (JSON.ch c 58) eqn:E2; [|discriminate].
    destruct (JSON.value m r2) as [[v1 r3]|] eqn:Ev; [|discriminate].
    apply IHv in Ev as [Hl1 Hn1].
    pose proof (skip_ws_length r3) as Hws3.
    destruct (JSON.skip_ws r3) as [|d r4] eqn:Ews3; [discriminate|].
    simpl in Hws3.
    destruct (JSON.ch d 44) eqn:E3.
    + apply IHm in H as [Hl Hn]. split; [lia|].
      intros [|n] Hb; [lia|]. unfold_parser.
      rewrite Ews, E1, Es, Ews1, E2, (Hn1 n) by lia.
      rewrite Ews3, E3. apply Hn. lia.
    + destruct (JSON.ch d 125) eqn:E4; [|discriminate].
      injection H as <- <-. split; [lia|].
      intros [|n] Hb; [lia|]. unfold_parser.
      rewrite Ews, E1, Es, Ews1, E2, (Hn1 n) by lia.
      now rewrite Ews3, E3, E4.
Qed.

(** The fuel [parse] gives is enough: a text that some fuel parses is
    parsed, to the same value, by [parse]. *)
Theorem parse_fuel_enough text m v r :
  JSON.value m (list_ascii_of_string text) = Some (v, r) ->
  JSON.skip_ws r = [] ->
  JSON.parse text = Some v.
Proof.
  intros H Hr. unfold JSON.parse.
  apply (fuel_enough m) in H as [_ H].
  rewrite H by lia. now rewrite Hr.
Qed.

(** So a text [parse] refuses is refused at every fuel. *)
Corollary parse_refuses text :
  JSON.parse text = None ->
  forall m v r,
    JSON.value m (list_ascii_of_string text) = Some (v, r) ->
    JSON.skip_ws r <> [].
Proof.
  intros Hnone m v r Hv Hr.
  rewrite (parse_fuel_enough text m v r Hv Hr) in Hnone. discriminate.
Qed.

Example parse_nested :
  JSON.parse "[[1.5e3, [true, null]], {}]"
  = Some (JArr [JArr [JNum 15 2; JArr [JBool true; JNull]]; JObj []]).
Proof. vm_compute. reflexivity. Qed.

(** ** The handler, branch by branch *)

#[local] Arguments calculateSign : simpl never.
#[local] Arguments JSON.parse : simpl never.

Lemma sign_differs_same s : sign_differs (SStr s) s = false.
Proof. simpl. now rewrite String.eqb_refl. Qed.

Lemma sign_differs_other v s : v <> SStr s -> sign_differs v s = true.
Proof.
  destruct v as [| | | |t]; simpl; try reflexivity.
  intros H. destruct (String.eqb_spec t s); [congruence|reflexivity].
Qed.

Lemma first_from_lookup i os p j o :
  AV.first_from i os p = Some (j, o) ->
  (i <= j)%nat /\ os !! (j - i)%nat = Some o /\ p o = true.
Proof.
  revert i. induction os as [|x os IH]; intros i; simpl; [discriminate|].
  destruct (p x) eqn:Hp.
  - intros [= <- <-]. rewrite Nat.sub_diag. auto.
  - intros H. apply IH in H as (Hle & Hl & Ho).
    replace (j - i)%nat with (S (j - S i)) by lia. split; [lia|]. auto.
Qed.

Lemma first_from_insert i os p j o o' :
  AV.first_from i os p = Some (j, o) ->
  p o' = true ->
  AV.first_from i (<[(j - i)%nat := o']> os) p = Some (j, o').
Proof.
  revert i. induction os as [|x os IH]; intros i; simpl; [discriminate|].
  destruct (p x) eqn:Hp.
  - intros [= <- <-] Ho. rewrite Nat.sub_diag. simpl. now rewrite Ho.
  - intros H Ho. pose proof (first_from_lookup _ _ _ _ _ H) as (Hle & _).
    replace (j - i)%nat with (S (j - S i)) by lia. simpl.
    rewrite Hp. now apply IH.
Qed.

Lemma first_from_none i os p :
  Forall (fun o => p o = false) os -> AV.first_from i os p = None.
Proof.
  intros H. revert i. induction H as [|x os Hx _ IH]; intros i; simpl;
    [reflexivity|]. now rewrite Hx.
Qed.

Lemma finds_lookup st body i order :
  finds st body i order ->
  AV.orders st !! i = Some order /\
  AV.equalTo "outTradeNo" (out_trade_no body) order = true.
Proof.
  intros H. apply first_from_lookup in H as (_ & Hl & Hp).
  now rewrite Nat.sub_0_r in Hl.
Qed.

(** Once the signature, the attachment and the look-up are through,
    what remains is the branch on the order's status. *)
Lemma lookup_set_ne o k v k' :
  k <> k' -> AV.attributes (AV.set o k v) !! k' = AV.attributes o !! k'.
Proof.
  intros H. unfold AV.set.
  destruct v; simpl; try reflexivity; now rewrite lookup_insert_ne.
Qed.

Lemma get_set_ne o k v k' : k <> k' -> AV.get (AV.set o k v) k' = AV.get o k'.
Proof. intros H. unfold AV.get. now rewrite lookup_set_ne. Qed.

Lemma id_set o k v : AV.id (AV.set o k v) = AV.id o.
Proof. now destruct v. Qed.

Lemma set_paid order tx t :
  AV.set (AV.set (AV.set order "status" (JStr "paid"))
            "transactionId" (of_scalar tx)) "paidAt" (JDate t)
  = paid_order order tx t.
Proof. unfold paid_order. now destruct (of_scalar tx). Qed.

Lemma run_accepted key t1 t2 body st i order userId productType :
  correctly_signed key body ->
  decodes body userId productType ->
  finds st body i order ->
  run key t1 t2 body st
  = if is_str (AV.get order "status") "paid" then (Sent "SUCCESS", st)
    else if is_str (AV.get order "status") "pending" then
      let order' := paid_order order (transaction_id body) t1 in
      grant_vip t2 order' userId productType (AV.save_order i order' st)
    else (Sent "SUCCESS", st).
Proof.
  intros Hs (d & Hp & Hd) Hf. unfold run.
  rewrite Hs, sign_differs_same, Hp, Hd. unfold finds in Hf.
  now rewrite Hf, set_paid.
Qed.

Lemma grant_vip_orders t2 order userId productType st :
  AV.orders (snd (grant_vip t2 order userId productType st)) = AV.orders st.
Proof.
  unfold grant_vip. destruct (AV.get_user st userId); [|reflexivity].
  now destruct (push_order_id _ _).
Qed.

(** The orders after a callback that passed the checks. *)
Lemma orders_accepted key t1 t2 body st i order userId productType :
  correctly_signed key body ->
  decodes body userId productType ->
  finds st body i order ->
  AV.get order "status" = JStr "pending" ->
  AV.orders (snd (handlePaymentCallback key t1 t2 body st))
  = <[i := paid_order order (transaction_id body) t1]> (AV.orders st).
Proof.
  intros Hs Hd Hf Hst. unfold handlePaymentCallback.
  rewrite (run_accepted _ _ _ _ _ _ _ _ _ Hs Hd Hf), Hst. simpl.
  pose proof (grant_vip_orders t2 (paid_order order (transaction_id body) t1)
                userId productType
                (AV.save_order i (paid_order order (transaction_id body) t1) st))
    as Ho.
  destruct (grant_vip _ _ _ _ _) as [[tok|] st']; exact Ho.
Qed.

(** A callback that fails a check leaves with [FAIL] and the store as
    it was. *)
Lemma rejected_before_lookup key t1 t2 body st :
  sign_differs (sign body) (calculateSign (signed_fields body) key) = true \/
  JSON.parse (ToString (attach body)) = None \/
  AV.first st (AV.equalTo "outTradeNo" (out_trade_no body)) = None ->
  handlePaymentCallback key t1 t2 body st = ("FAIL", st).
Proof.
  unfold handlePaymentCallback, run. intros [H|[H|H]].
  - now rewrite H.
  - destruct (sign_differs _ _); [reflexivity|]. now rewrite H.
  - destruct (sign_differs _ _); [reflexivity|].
    destruct (JSON.parse _) as [d|]; [|reflexivity].
    destruct (destructure d) as [[u pt]|]; [|reflexivity].
    now rewrite H.
Qed.

(** C1, as the code has it: a correctly signed callback with a
    decodable attachment, for a stored order whose status is
    [cancelled] or [expired], is answered with the success token, and
    the store is left as it was. *)
Theorem closed_order_acknowledged key t1 t2 body st i order userId productType :
  correctly_signed key body ->
  decodes body userId productType ->
  finds st body i order ->
  AV.get order "status" = JStr "cancelled" \/
  AV.get order "status" = JStr "expired" ->
  handlePaymentCallback key t1 t2 body st = ("SUCCESS", st).
Proof.
  intros Hs Hd Hf Hst. unfold handlePaymentCallback.
  rewrite (run_accepted _ _ _ _ _ _ _ _ _ Hs Hd Hf).
  now destruct Hst as [-> | ->].
Qed.

Lemma closed_order_acknowledged_witness :
  handlePaymentCallback Scenario.key 1000 1001 Scenario.body
    (Scenario.store "cancelled")
  = ("SUCCESS", Scenario.store "cancelled").
Proof.
  apply (closed_order_acknowledged _ _ _ _ _ 0%nat
           (Scenario.order "cancelled") (JStr "u1") (JStr "lifetime")).
  - vm_compute. reflexivity.
  - eexists. split; vm_compute; reflexivity.
  - vm_compute. reflexivity.
  - left. vm_compute. reflexivity.
Defined.

(** C1 as worded fails: the callback for a cancelled order is not
    answered with the failure token. *)
Lemma cancelled_order_not_rejected :
  correctly_signed Scenario.key Scenario.body /\
  decodes Scenario.body (JStr "u1") (JStr "lifetime") /\
  finds (Scenario.store "cancelled") Scenario.body 0
    (Scenario.order "cancelled") /\
  AV.get (Scenario.order "cancelled") "status" = JStr "cancelled" /\
  fst (handlePaymentCallback Scenario.key 1000 1001 Scenario.body
         (Scenario.store "cancelled")) <> "FAIL".
Proof.
  repeat split; try (vm_compute; reflexivity).
  - eexists. split; vm_compute; reflexivity.
  - vm_compute. discriminate.
Qed.

Lemma get_user_save_order st i o v :
  AV.get_user (AV.save_order i o st) v = AV.get_user st v.
Proof. reflexivity. Qed.

Lemma get_user_None st userId :
  (forall uid, userId = JStr uid -> AV.users st !! uid = None) ->
  AV.get_user st userId = None.
Proof.
  intros Hu. destruct userId; try reflexivity. simpl. now rewrite (Hu s).
Qed.

(** C3, as the code runs: a valid callback for a pending order whose
    decoded user identifier has no user record commits the transition
    to [paid] and writes no user record, but the look-up of the user
    rejects, the handler's [catch] takes over, and the answer is the
    failure token, not the success token. *)
Theorem missing_user_rejected_after_payment
  key t1 t2 body st i order userId productType :
  correctly_signed key body ->
  decodes body userId productType ->
  finds st body i order ->
  AV.get order "status" = JStr "pending" ->
  (forall uid, userId = JStr uid -> AV.users st !! uid = None) ->
  handlePaymentCallback key t1 t2 body st
  = ("FAIL",
     {| AV.orders :=
          <[i := paid_order order (transaction_id body) t1]> (AV.orders st);
        AV.users := AV.users st |}).
Proof.
  intros Hs Hd Hf Hst Hu. unfold handlePaymentCallback.
  rewrite (run_accepted _ _ _ _ _ _ _ _ _ Hs Hd Hf), Hst. simpl.
  unfold grant_vip.
  now rewrite get_user_save_order, (get_user_None _ _ Hu).
Qed.

Lemma missing_user_rejected_after_payment_witness :
  handlePaymentCallback Scenario.key 1000 1001 Scenario.body
    (Scenario.store_without_user "pending")
  = ("FAIL",
     {| AV.orders :=
          <[0%nat := paid_order (Scenario.order "pending") (SStr "tx1") 1000]>
            [Scenario.order "pending"];
        AV.users := ∅ |}).
Proof.
  apply (missing_user_rejected_after_payment Scenario.key 1000 1001
           Scenario.body (Scenario.store_without_user "pending") 0%nat
           (Scenario.order "pending") (JStr "u1") (JStr "lifetime")).
  - vm_compute. reflexivity.
  - eexists. split; vm_compute; reflexivity.
  - vm_compute. reflexivity.
  - vm_compute. reflexivity.
  - intros uid _. vm_compute. reflexivity.
Defined.

Lemma field_absent members k :
  ~ In k (map fst members) -> field members k = JUndefined.
Proof.
  induction members as [|[k' v] r IH]; simpl; [reflexivity|].
  intros H. destruct (existsb _ r); [apply IH; tauto|].
  destruct (String.eqb_spec k' k); [tauto|reflexivity].
Qed.

Lemma equalTo_true k v o :
  AV.equalTo k v o = true -> AV.get o k = of_scalar v.
Proof.
  unfold AV.equalTo. destruct v; try discriminate.
  destruct (AV.get o k); try discriminate.
  intros H. apply String.eqb_eq in H. now subst.
Qed.

(** C5: when the [sign] of the payload is not the signature recomputed
    over its [out_trade_no], [transaction_id] and [total_fee] with the
    shared secret (a correct one with any byte altered, for instance),
    or when the store holds no order under the merchant order number,
    the answer is the failure token and no record is changed. *)
Theorem forged_or_unknown_rejected key t1 t2 body st :
  sign body <> SStr (calculateSign (signed_fields body) key) \/
  (forall o, o ∈ AV.orders st ->
             AV.get o "outTradeNo" <> of_scalar (out_trade_no body)) ->
  handlePaymentCallback key t1 t2 body st = ("FAIL", st).
Proof.
  intros [H|H]; apply rejected_before_lookup.
  - left. now apply sign_differs_other.
  - right. right. apply first_from_none, Forall_forall. intros o Ho.
    destruct (AV.equalTo _ _ o) eqn:He; [|reflexivity].
    apply equalTo_true in He. now apply H in Ho.
Qed.

Lemma forged_or_unknown_rejected_witness :
  handlePaymentCallback Scenario.key 1000 1001
    {| out_trade_no := SStr "VIP_u1_1"; transaction_id := SStr "tx1";
       total_fee := SStr "6900"; attach := attach Scenario.body;
       sign := SStr "806020DB2C0961EF584575BC1F7CE17C" |}
    (Scenario.store "pending")
  = ("FAIL", Scenario.store "pending").
Proof.
  apply forged_or_unknown_rejected. left. vm_compute. discriminate.
Defined.

(** C6, as the code has it: an attachment that is not valid JSON makes
    the handler answer with the failure token and leave the store, the
    matched order included, as it was.  An attachment that parses to an
    object passes the decode step whatever members it has, and the
    correctly signed callback is processed: for an order already [paid]
    it is acknowledged, for a [pending] order the order is written as
    [paid]; when the object holds no [userId], the look-up of the user
    then rejects and the answer is the failure token, the order staying
    [paid]. *)
Theorem unparsable_attachment_rejected key t1 t2 body st :
  (JSON.parse (ToString (attach body)) = None ->
   handlePaymentCallback key t1 t2 body st = ("FAIL", st)) /\
  (forall members i order,
      JSON.parse (ToString (attach body)) = Some (JObj members) ->
      correctly_signed key body ->
      finds st body i order ->
      (AV.get order "status" = JStr "paid" ->
       handlePaymentCallback key t1 t2 body st = ("SUCCESS", st)) /\
      (AV.get order "status" = JStr "pending" ->
       AV.orders (snd (handlePaymentCallback key t1 t2 body st))
       = <[i := paid_order order (transaction_id body) t1]> (AV.orders st)) /\
      (AV.get order "status" = JStr "pending" ->
       ~ In "userId" (map fst members) ->
       handlePaymentCallback key t1 t2 body st
       = ("FAIL",
          {| AV.orders :=
               <[i := paid_order order (transaction_id body) t1]> (AV.orders st);
             AV.users := AV.users st |}))).
Proof.
  split.
  - intros H. apply rejected_before_lookup. auto.
  - intros members i order Hp Hs Hf.
    assert (Hd : decodes body (field members "userId")
                   (field members "productType")).
    { exists (JObj members). auto. }
    split; [|split].
    + intros Hst. unfold handlePaymentCallback.
      now rewrite (run_accepted _ _ _ _ _ _ _ _ _ Hs Hd Hf), Hst.
    + intros Hst. now apply (orders_accepted _ _ _ _ _ _ _ _ _ Hs Hd Hf).
    + intros Hst Hno. unfold handlePaymentCallback.
      rewrite (run_accepted _ _ _ _ _ _ _ _ _ Hs Hd Hf), Hst. simpl.
      unfold grant_vip. now rewrite (field_absent _ _ Hno).
Qed.

Lemma unparsable_attachment_rejected_witness :
  handlePaymentCallback Scenario.key 1000 1001
    (Scenario.callback "userId=u1") (Scenario.store "pending")
  = ("FAIL", Scenario.store "pending").
Proof.
  apply (proj1 (unparsable_attachment_rejected Scenario.key 1000 1001
                  (Scenario.callback "userId=u1") (Scenario.store "pending"))).
  vm_compute. reflexivity.
Defined.

(** C6 as worded fails on an attachment that parses but names no user:
    the callback for a paid order is acknowledged, and the one for a
    pending order marks the order paid before it is answered with the
    failure token. *)
Lemma attachment_without_user_not_rejected :
  let body := Scenario.callback Scenario.attachment_without_user in
  correctly_signed Scenario.key body /\
  JSON.parse (ToString (attach body))
    = Some (JObj [("productType", JStr "lifetime")]) /\
  finds (Scenario.store "paid") body 0 (Scenario.order "paid") /\
  fst (handlePaymentCallback Scenario.key 1000 1001 body
         (Scenario.store "paid")) <> "FAIL" /\
  finds (Scenario.store "pending") body 0 (Scenario.order "pending") /\
  handlePaymentCallback Scenario.key 1000 1001 body (Scenario.store "pending")
  = ("FAIL",
     {| AV.orders := [paid_order (Scenario.order "pending") (SStr "tx1") 1000];
        AV.users := AV.users (Scenario.store "pending") |}).
Proof.
  repeat split; try (vm_compute; reflexivity).
  vm_compute. discriminate.
Qed.

(** ** The entitlement grant *)

Lemma sign_differs_false v s : sign_differs v s = false -> v = SStr s.
Proof.
  destruct v as [| | | |t]; simpl; try discriminate.
  destruct (String.eqb_spec t s); [congruence|discriminate].
Qed.

Lemma is_str_true v s : is_str v s = true -> v = JStr s.
Proof.
  destruct v; simpl; try discriminate.
  intros H. apply String.eqb_eq in H. now subst.
Qed.


Lemma get_user_Some st v u :
  AV.get_user st v = Some u ->
  exists uid, v = JStr uid /\ AV.id u = uid /\
              AV.users st !! uid = Some (AV.attributes u).
Proof.
  destruct v; simpl; try discriminate.
  destruct (AV.users st !! s) eqn:Hu; [|discriminate].
  intros [= <-]. eauto.
Qed.

Lemma push_stored v oid ids :
  stored_ids v = Some ids -> push_order_id v oid = Some (ids ++ [JStr oid]).
Proof. destruct v; simpl; intros [= <-]; reflexivity. Qed.

(** The four writes of step 5, on the attributes [a] of the user. *)
Lemma grant_vip_existing t2 order uid productType st a ids :
  AV.users st !! uid = Some a ->
  stored_ids (default JUndefined (a !! "vipOrderIds")) = Some ids ->
  grant_vip t2 order (JStr uid) productType st
  = (Sent "SUCCESS",
     {| AV.orders := AV.orders st;
        AV.users :=
          <[uid :=
              <["vipOrderIds" := JArr (ids ++ [JStr (AV.id order)])]>
                (AV.attributes
                   (grant_fields t2 {| AV.id := uid; AV.attributes := a |}
                      productType))]>
            (AV.users st) |}).
Proof.
  intros Hu Hids. unfold grant_vip. simpl. rewrite Hu.
  set (u := grant_fields _ _ _).
  assert (Hget : AV.get u "vipOrderIds" = default JUndefined (a !! "vipOrderIds")).
  { unfold u, grant_fields. destruct (is_str _ _);
      now rewrite !get_set_ne by discriminate. }
  rewrite Hget, (push_stored _ _ _ Hids). unfold AV.save_user. simpl.
  assert (Hid : AV.id u = uid).
  { unfold u, grant_fields. destruct (is_str _ _); now rewrite !id_set. }
  now rewrite Hid.
Qed.



(** ** Redelivery *)

Lemma get_paid_order_other order tx t k :
  k <> "status" -> k <> "transactionId" -> k <> "paidAt" ->
  AV.get (paid_order order tx t) k = AV.get order k.
Proof.
  intros. unfold AV.get, paid_order. simpl.
  destruct (of_scalar tx); now rewrite !lookup_insert_ne by congruence.
Qed.

Lemma get_paid_order_status order tx t :
  AV.get (paid_order order tx t) "status" = JStr "paid".
Proof.
  unfold AV.get, paid_order. simpl.
  destruct (of_scalar tx);
    rewrite !lookup_insert_ne by discriminate; now rewrite lookup_insert_eq.
Qed.

Lemma finds_after_paid st body i order tx t users' :
  finds st body i order ->
  finds {| AV.orders := <[i := paid_order order tx t]> (AV.orders st);
           AV.users := users' |} body i (paid_order order tx t).
Proof.
  intros Hf. unfold finds, AV.first in *. simpl.
  pose proof (first_from_lookup _ _ _ _ _ Hf) as (_ & _ & Hp).
  rewrite <- (Nat.sub_0_r i) at 1. apply (first_from_insert _ _ _ _ order); auto.
  unfold AV.equalTo in *.
  now rewrite get_paid_order_other by discriminate.
Qed.

(** C2: two deliveries in a row of the same valid callback (correct
    signature, attachment naming an existing user, merchant order
    number of a pending order) make one transition to [paid] and one
    append to the user's [vipOrderIds]; both are answered with the
    success token, and the second, finding the order paid, changes
    nothing. *)
Theorem redelivery_idempotent
    key t1 t2 t1' t2' body st i order uid productType a ids :
  correctly_signed key body ->
  decodes body (JStr uid) productType ->
  finds st body i order ->
  AV.get order "status" = JStr "pending" ->
  AV.users st !! uid = Some a ->
  stored_ids (default JUndefined (a !! "vipOrderIds")) = Some ids ->
  exists st1 a',
    handlePaymentCallback key t1 t2 body st = ("SUCCESS", st1) /\
    handlePaymentCallback key t1' t2' body st1 = ("SUCCESS", st1) /\
    AV.orders st1
    = <[i := paid_order order (transaction_id body) t1]> (AV.orders st) /\
    AV.users st1 = <[uid := a']> (AV.users st) /\
    a' !! "vipOrderIds" = Some (JArr (ids ++ [JStr (AV.id order)])).
Proof.
  intros Hs Hd Hf Hst Hu Hids. unfold handlePaymentCallback.
  rewrite (run_accepted _ _ _ _ _ _ _ _ _ Hs Hd Hf), Hst. simpl.
  rewrite (grant_vip_existing _ _ _ _ _ a ids); [|exact Hu|exact Hids].
  simpl. eexists. eexists. split; [reflexivity|].
  split; [|split; [reflexivity|split; [reflexivity|apply lookup_insert_eq]]].
  rewrite (run_accepted _ _ _ _ _ _ _ _ _ Hs Hd
             (finds_after_paid _ _ _ _ _ _ _ Hf)).
  now rewrite get_paid_order_status.
Qed.

Lemma redelivery_idempotent_witness :
  exists st1 a',
    handlePaymentCallback Scenario.key 1000 1001 Scenario.body
      (Scenario.store "pending") = ("SUCCESS", st1) /\
    handlePaymentCallback Scenario.key 2000 2001 Scenario.body st1
      = ("SUCCESS", st1) /\
    AV.orders st1
    = <[0%nat := paid_order (Scenario.order "pending") (SStr "tx1") 1000]>
        (AV.orders (Scenario.store "pending")) /\
    AV.users st1 = <["u1" := a']> (AV.users (Scenario.store "pending")) /\
    a' !! "vipOrderIds" = Some (JArr ([] ++ [JStr "o1"])).
Proof.
  apply (redelivery_idempotent Scenario.key 1000 1001 2000 2001 Scenario.body
           (Scenario.store "pending") 0%nat (Scenario.order "pending")
           "u1" (JStr "lifetime") Scenario.user []).
  - vm_compute. reflexivity.
  - eexists. split; vm_compute; reflexivity.
  - vm_compute. reflexivity.
  - vm_compute. reflexivity.
  - vm_compute. reflexivity.
  - vm_compute. reflexivity.
Defined.

(** ** The life of an order under any sequence of deliveries *)

(** One delivery leaves the orders alone or rewrites one pending order
    as paid. *)
Lemma deliver_orders key st d :
  AV.orders (deliver key st d) = AV.orders st \/
  exists i o,
    AV.orders st !! i = Some o /\
    AV.get o "status" = JStr "pending" /\
    AV.orders (deliver key st d)
    = <[i := paid_order o (transaction_id (d_body d)) (d_paid_now d)]>
        (AV.orders st).
Proof.
  unfold deliver, handlePaymentCallback, run.
  destruct (sign_differs _ _); [now left|].
  destruct (JSON.parse _) as [a|]; [|now left].
  destruct (destructure a) as [[userId productType]|]; [|now left].
  destruct (AV.first _ _) as [[i order]|] eqn:Hf; [|now left].
  destruct (is_str (AV.get order "status") "paid"); [now left|].
  destruct (is_str (AV.get order "status") "pending") eqn:Hst; [|now left].
  right. exists i, order. apply finds_lookup in Hf as [Hl _].
  split; [exact Hl|]. split; [now apply is_str_true|].
  rewrite set_paid.
  match goal with
  | |- AV.orders (snd (let (_, _) := ?g in _)) = _ =>
      assert (Ho := grant_vip_orders (d_grant_now d)
                      (paid_order order (transaction_id (d_body d)) (d_paid_now d))
                      userId productType
                      (AV.save_order i
                         (paid_order order (transaction_id (d_body d)) (d_paid_now d))
                         st));
      destruct g as [[tok|] st']; simpl in *; exact Ho
  end.
Qed.

Lemma deliver_order_at key st d i o :
  AV.orders st !! i = Some o ->
  exists o',
    AV.orders (deliver key st d) !! i = Some o' /\
    (o' = o \/
     (AV.get o "status" = JStr "pending" /\
      o' = paid_order o (transaction_id (d_body d)) (d_paid_now d))).
Proof.
  intros Hl. destruct (deliver_orders key st d) as [->|(j & oj & Hj & Hst & ->)].
  - eauto.
  - destruct (decide (j = i)) as [->|Hne].
    + assert (oj = o) by congruence. subst oj.
      eexists. split; [|right; eauto].
      apply list_lookup_insert_eq. now apply lookup_lt_Some in Hl.
    + exists o. split; [|now left]. now rewrite list_lookup_insert_ne.
Qed.

Lemma get_paid_order_paidAt order tx t :
  AV.get (paid_order order tx t) "paidAt" = JDate t.
Proof. unfold AV.get, paid_order. simpl. now rewrite lookup_insert_eq. Qed.

Lemma get_paid_order_transactionId order tx t :
  of_scalar tx <> JUndefined ->
  AV.get (paid_order order tx t) "transactionId" = of_scalar tx.
Proof.
  intros H. unfold AV.get, paid_order. simpl.
  rewrite lookup_insert_ne by discriminate.
  destruct (of_scalar tx); try congruence; now rewrite lookup_insert_eq.
Qed.

Lemma get_paid_order_no_transactionId order tx t :
  of_scalar tx = JUndefined ->
  AV.get (paid_order order tx t) "transactionId" = AV.get order "transactionId".
Proof.
  intros H. unfold AV.get, paid_order. simpl. rewrite H.
  now rewrite !lookup_insert_ne by discriminate.
Qed.

Lemma paid_order_sound o tx t : paid_fields_sound (paid_order o tx t).
Proof.
  unfold paid_fields_sound, is_set.
  rewrite get_paid_order_status, get_paid_order_paidAt.
  split; [split|]; intros _; [reflexivity|discriminate|reflexivity].
Qed.

Lemma paid_order_consistent o tx t :
  of_scalar tx <> JUndefined -> paid_fields_consistent (paid_order o tx t).
Proof.
  intros Htx. unfold paid_fields_consistent, is_set.
  rewrite get_paid_order_status, get_paid_order_paidAt,
    get_paid_order_transactionId by assumption.
  split; split; intros _; try reflexivity; [assumption|discriminate].
Qed.

(** C7, as the code has it: through any sequence of deliveries, from
    any store, an order record is either left exactly as it was or,
    having been [pending], is rewritten once, by one delivery, as
    [paid] with that delivery's [paidAt] and, when the callback carries
    one, its [transactionId]; a record whose status is not [pending] is
    never rewritten.  Records on which [paidAt] is set exactly when the
    status is [paid], and [transactionId] only then, stay so; when
    every callback delivered carries a transaction identifier, records
    on which both are set exactly when the status is [paid] stay so. *)
Theorem order_only_pending_to_paid key ds st i o :
  AV.orders st !! i = Some o ->
  exists o',
    AV.orders (deliver_all key ds st) !! i = Some o' /\
    (o' = o \/
     (AV.get o "status" = JStr "pending" /\
      exists d, d ∈ ds /\
        o' = paid_order o (transaction_id (d_body d)) (d_paid_now d))) /\
    (AV.get o "status" <> JStr "pending" -> o' = o) /\
    (paid_fields_sound o -> paid_fields_sound o') /\
    ((forall d, d ∈ ds -> has_transaction_id (d_body d)) ->
     paid_fields_consistent o -> paid_fields_consistent o').
Proof.
  revert st o. induction ds as [|d ds IH]; intros st o Hl; simpl.
  - exists o. auto 6.
  - destruct (deliver_order_at key st d i o Hl) as (o1 & Hl1 & Hstep).
    destruct (IH _ _ Hl1) as (o' & Hl' & Hrest & Hterm & Hinv & Hall).
    exists o'. split; [exact Hl'|].
    destruct Hstep as [->|[Hpend ->]].
    + split; [|split; [|split]]; try assumption.
      * destruct Hrest as [->|(Hp & d' & Hd' & ->)]; [now left|].
        right. split; [exact Hp|]. exists d'. split; [|reflexivity].
        now apply list_elem_of_further.
      * intros Hds. apply Hall. intros d' Hd'. apply Hds.
        now apply list_elem_of_further.
    + assert (Hfix : o' = paid_order o (transaction_id (d_body d)) (d_paid_now d)).
      { apply Hterm. rewrite get_paid_order_status. discriminate. }
      subst o'. split; [|split; [|split]].
      * right. split; [exact Hpend|]. exists d. split; [|reflexivity].
        apply list_elem_of_here.
      * intros Hnp. contradiction.
      * intros _. apply paid_order_sound.
      * intros Hds _. apply paid_order_consistent, Hds, list_elem_of_here.
Qed.

Lemma order_only_pending_to_paid_witness :
  let ds :=
    [ {| d_body := Scenario.body; d_paid_now := 1000; d_grant_now := 1001 |};
      {| d_body := Scenario.body; d_paid_now := 2000; d_grant_now := 2001 |} ] in
  exists o',
    AV.orders (deliver_all Scenario.key ds (Scenario.store "pending")) !! 0%nat
    = Some o' /\
    (o' = Scenario.order "pending" \/
     (AV.get (Scenario.order "pending") "status" = JStr "pending" /\
      exists d,
        d ∈ ds /\
        o' = paid_order (Scenario.order "pending")
               (transaction_id (d_body d)) (d_paid_now d))) /\
    (AV.get (Scenario.order "pending") "status" <> JStr "pending" ->
     o' = Scenario.order "pending") /\
    (paid_fields_sound (Scenario.order "pending") -> paid_fields_sound o') /\
    ((forall d, d ∈ ds -> has_transaction_id (d_body d)) ->
     paid_fields_consistent (Scenario.order "pending") ->
     paid_fields_consistent o').
Proof.
  intros ds.
  apply (order_only_pending_to_paid Scenario.key ds (Scenario.store "pending")
           0%nat (Scenario.order "pending")).
  vm_compute. reflexivity.
Defined.

(** C7 as worded fails on a correctly signed callback that carries no
    [transaction_id]: the pending order, on which neither field is set,
    becomes [paid] with [paidAt] set and [transactionId] not set. *)
Lemma paid_without_transaction_id :
  let body := Scenario.body_without_transaction in
  let o := Scenario.order "pending" in
  let o' := paid_order o SUndefined 1000 in
  correctly_signed Scenario.key body /\
  finds (Scenario.store "pending") body 0 o /\
  paid_fields_consistent o /\
  fst (handlePaymentCallback Scenario.key 1000 1001 body
         (Scenario.store "pending")) = "SUCCESS" /\
  AV.orders (snd (handlePaymentCallback Scenario.key 1000 1001 body
                    (Scenario.store "pending"))) = [o'] /\
  AV.get o' "status" = JStr "paid" /\
  AV.get o' "paidAt" = JDate 1000 /\
  AV.get o' "transactionId" = JUndefined /\
  ~ paid_fields_consistent o'.
Proof.
  intros body o o'.
  assert (Hst : AV.get o' "status" = JStr "paid") by (vm_compute; reflexivity).
  assert (Htx : AV.get o' "transactionId" = JUndefined)
    by (vm_compute; reflexivity).
  split; [vm_compute; reflexivity|].
  split; [vm_compute; reflexivity|].
  split.
  { unfold paid_fields_consistent, is_set.
    replace (AV.get o "transactionId") with JUndefined by (vm_compute; reflexivity).
    replace (AV.get o "paidAt") with JUndefined by (vm_compute; reflexivity).
    replace (AV.get o "status") with (JStr "pending") by (vm_compute; reflexivity).
    split; split; intros H; congruence. }
  split; [vm_compute; reflexivity|].
  split; [vm_compute; reflexivity|].
  split; [exact Hst|].
  split; [vm_compute; reflexivity|].
  split; [exact Htx|].
  intros [[_ H] _]. now apply H.
Qed.

Example two_deliveries_one_transition :
  AV.orders
    (deliver_all Scenario.key
       [ {| d_body := Scenario.body; d_paid_now := 1000; d_grant_now := 1001 |};
         {| d_body := Scenario.body; d_paid_now := 2000; d_grant_now := 2001 |} ]
       (Scenario.store "pending"))
  = [paid_order (Scenario.order "pending") (SStr "tx1") 1000].
Proof. vm_compute. reflexivity. Qed.

(** * Properties of the code around the claims *)

(** ** The shape of a signature *)

Lemma le_bytes_length n x : length (MD5.le_bytes n x) = n.
Proof. revert x. induction n as [|n IH]; intros x; simpl; [reflexivity|]. now rewrite IH. Qed.

Lemma le_bytes_range n x : Forall (fun b => 0 <= b < 256) (MD5.le_bytes n x).
Proof.
  revert x. induction n as [|n IH]; intros x; simpl; constructor; [|apply IH].
  apply Z.mod_pos_bound. lia.
Qed.

Lemma digest_length bs : length (MD5.digest bs) = 16%nat.
Proof. unfold MD5.digest. rewrite !length_app, !le_bytes_length. reflexivity. Qed.

Lemma digest_range bs : Forall (fun b => 0 <= b < 256) (MD5.digest bs).
Proof. unfold MD5.digest. rewrite !Forall_app. auto using le_bytes_range. Qed.

Lemma upper_hex_digit d :
  0 <= d < 16 -> is_upper_hex (upper_ascii (hex_digit d)) = true.
Proof.
  intros H.
  assert (d = 0 \/ d = 1 \/ d = 2 \/ d = 3 \/ d = 4 \/ d = 5 \/ d = 6 \/ d = 7 \/
          d = 8 \/ d = 9 \/ d = 10 \/ d = 11 \/ d = 12 \/ d = 13 \/ d = 14 \/
          d = 15) as Hd by lia.
  repeat destruct Hd as [->|Hd]; try reflexivity. subst. reflexivity.
Qed.

Lemma upper_hex_text bs :
  Forall (fun b => 0 <= b < 256) bs ->
  String.length (toUpperCase (hex bs)) = (2 * length bs)%nat /\
  forallb is_upper_hex (list_ascii_of_string (toUpperCase (hex bs))) = true.
Proof.
  induction 1 as [|b bs Hb _ [IHl IHc]]; simpl; [auto|].
  split; [lia|].
  rewrite !upper_hex_digit, IHc; [reflexivity| |].
  - apply Z.mod_pos_bound. lia.
  - split; [apply Z.div_pos; lia|apply Z.div_lt_upper_bound; lia].
Qed.

(** X1: every signature [calculateSign] returns is 32 characters long,
    each a digit or a letter [A] to [F]. *)
Theorem calculateSign_format (params : object) (key : string) :
  String.length (calculateSign params key) = 32%nat /\
  forallb is_upper_hex (list_ascii_of_string (calculateSign params key)) = true.
Proof.
  unfold calculateSign, md5_hex.
  destruct (upper_hex_text _ (digest_range (str_bytes (fullStr params key))))
    as [Hl Hc].
  rewrite digest_length in Hl. auto.
Qed.

(** ** Entries that are not signed, values that are *)

Lemma signed_key_dropped (p : object) k :
  signed_key p k = negb (String.eqb k "sign") && negb (dropped (prop p k)).
Proof. unfold signed_key. f_equal. now destruct (prop p k) as [| | |?|[|? ?]]. Qed.

Lemma prop_middle_other (l1 l2 : object) k v k' :
  k' <> k -> prop (l1 ++ (k, v) :: l2) k' = prop (l1 ++ l2) k'.
Proof.
  intros Hne. induction l1 as [|[k1 v1] l1 IH]; simpl.
  - destruct (String.eqb_spec k k'); [congruence|reflexivity].
  - now rewrite IH.
Qed.

Lemma prop_middle_same (l1 l2 : object) k v :
  ~ In k (Object_keys l1) -> prop (l1 ++ (k, v) :: l2) k = v.
Proof.
  induction l1 as [|[k1 v1] l1 IH]; simpl; intros Hk.
  - now rewrite String.eqb_refl.
  - destruct (String.eqb_spec k1 k); [tauto|]. apply IH. tauto.
Qed.

Lemma In_sort k l : In k (sort l) <-> In k l.
Proof.
  split; apply Permutation_in; [|symmetry]; apply sort_perm.
Qed.

Lemma signStr_ext (p q : object) :
  Object_keys p = Object_keys q ->
  (forall k, In k (Object_keys p) ->
             dropped (prop p k) = dropped (prop q k) /\
             ToString (prop p k) = ToString (prop q k)) ->
  signStr p = signStr q.
Proof.
  intros Hk Hv. unfold signStr. rewrite <- Hk.
  rewrite (filter_ext_in (signed_key p) (signed_key q)).
  - f_equal. apply map_ext_in. intros k Hin.
    apply filter_In in Hin as [Hin _]. rewrite In_sort in Hin.
    unfold pair_text. now rewrite (proj2 (Hv k Hin)).
  - intros k Hin. rewrite In_sort in Hin. rewrite !signed_key_dropped.
    now rewrite (proj1 (Hv k Hin)).
Qed.

Lemma signStr_drop_entry (l1 l2 : object) k v :
  dropped v = true ->
  ~ In k (Object_keys (l1 ++ l2)) ->
  signStr (l1 ++ (k, v) :: l2) = signStr (l1 ++ l2).
Proof.
  intros Hv Hk. unfold signStr.
  assert (Hk1 : ~ In k (Object_keys l1)).
  { intros H. apply Hk. unfold Object_keys. rewrite map_app, in_app_iff. auto. }
  assert (Hf : List.filter (signed_key (l1 ++ (k, v) :: l2))
                 (Object_keys (l1 ++ (k, v) :: l2))
               = List.filter (signed_key (l1 ++ l2)) (Object_keys (l1 ++ l2))).
  { unfold Object_keys. rewrite !map_app, !List.filter_app. simpl.
    rewrite signed_key_dropped, (prop_middle_same l1 l2 k v Hk1), Hv.
    rewrite andb_false_r. f_equal; apply filter_ext_in; intros k' Hin;
      rewrite !signed_key_dropped, prop_middle_other; try reflexivity;
      intros ->; apply Hk; unfold Object_keys; rewrite map_app, in_app_iff; auto. }
  rewrite !filter_sort, Hf. f_equal. apply map_ext_in. intros k' Hin.
  rewrite In_sort in Hin. apply filter_In in Hin as [Hin _].
  unfold pair_text. rewrite prop_middle_other; [reflexivity|]. now intros ->.
Qed.

(** X2: an entry whose value is the empty string, null or undefined is
    not signed: putting one into a parameter object, under a key the
    object does not hold, leaves the signature as it was. *)
Theorem calculateSign_ignores_empty (l1 l2 : object) k v (key : string) :
  v = SStr EmptyString \/ v = SNull \/ v = SUndefined ->
  ~ In k (Object_keys (l1 ++ l2)) ->
  calculateSign (l1 ++ (k, v) :: l2) key = calculateSign (l1 ++ l2) key.
Proof.
  intros Hv Hk. unfold calculateSign, fullStr.
  rewrite signStr_drop_entry; [reflexivity| |exact Hk].
  now destruct Hv as [->|[->| ->]].
Qed.

Lemma calculateSign_ignores_empty_witness :
  calculateSign
    [("out_trade_no", SStr "VIP_u1_1"); ("attach", SStr EmptyString);
     ("total_fee", SNum (SafeInt 6900 eq_refl))] "secret"
  = calculateSign
      [("out_trade_no", SStr "VIP_u1_1"); ("total_fee", SNum (SafeInt 6900 eq_refl))] "secret".
Proof.
  apply (calculateSign_ignores_empty [("out_trade_no", SStr "VIP_u1_1")]
           [("total_fee", SNum (SafeInt 6900 eq_refl))] "attach" (SStr EmptyString) "secret").
  - left. reflexivity.
  - simpl. intros [H|[H|[]]]; discriminate.
Defined.

Lemma lfilter_none {A} (f : A -> bool) l :
  (forall x, In x l -> f x = false) -> List.filter f l = [].
Proof.
  induction l as [|x l IH]; simpl; intros H; [reflexivity|].
  rewrite (H x) by auto. apply IH. auto.
Qed.

(** X4: when every entry is under the key [sign] or holds an empty, null
    or undefined value (an empty object included), what is hashed is
    [&key=<secret>] alone, with its leading [&]. *)
Theorem calculateSign_nothing_signed (params : object) (key : string) :
  (forall k, In k (Object_keys params) ->
             k = "sign" \/ dropped (prop params k) = true) ->
  calculateSign params key = toUpperCase (md5_hex ("&key=" +:+ key)).
Proof.
  intros H. unfold calculateSign, fullStr, signStr.
  replace (List.filter (signed_key params) (sort (Object_keys params)))
    with (@nil string); [reflexivity|].
  symmetry. apply lfilter_none. intros k Hin. rewrite In_sort in Hin.
  rewrite signed_key_dropped. destruct (H k Hin) as [-> | Hd].
  - now rewrite String.eqb_refl.
  - rewrite Hd. now rewrite andb_false_r.
Qed.

Lemma calculateSign_nothing_signed_witness :
  calculateSign [("sign", SStr "abc"); ("attach", SNull)] "secret"
  = toUpperCase (md5_hex ("&key=" +:+ "secret")).
Proof.
  apply calculateSign_nothing_signed.
  simpl. intros k [<-|[<-|[]]]; [left|right]; reflexivity.
Defined.

(** ** What the handler signs *)

(** X3: the string the handler hashes to check a callback is
    [out_trade_no=..&total_fee=..&transaction_id=..&key=<secret>], in
    that order, a field that is absent, null or empty being left out
    with its [&]. *)
Theorem callback_canonical_string (body : Body) (key : string) :
  fullStr (signed_fields body) key
  = join "&"
      (map (fun kv => fst kv +:+ "=" +:+ ToString (snd kv))
         (List.filter (fun kv => negb (dropped (snd kv)))
            [("out_trade_no", out_trade_no body);
             ("total_fee", total_fee body);
             ("transaction_id", transaction_id body)]))
    +:+ "&key=" +:+ key.
Proof.
  destruct body as [o t f a s]. unfold fullStr, signStr, signed_fields. simpl.
  f_equal.
  change (sort ["out_trade_no"; "transaction_id"; "total_fee"])
    with ["out_trade_no"; "total_fee"; "transaction_id"].
  destruct o as [| | |?|[|? ?]], t as [| | |?|[|? ?]], f as [| | |?|[|? ?]];
    reflexivity.
Qed.

(** ** Integers and booleans are signed as their text *)

Lemma pretty_N_go_nonempty x s : s <> EmptyString -> pretty_N_go x s <> EmptyString.
Proof.
  revert s. induction (N.lt_wf_0 x) as [x _ IH]; intros s Hs.
  assert (x = 0 \/ 0 < x)%N as [->|Hx] by lia.
  - now rewrite pretty_N_go_0.
  - rewrite pretty_N_go_step by assumption. apply IH; [|discriminate].
    now apply N.div_lt.
Qed.

Lemma pretty_Z_nonempty (n : Z) : pretty n <> EmptyString.
Proof.
  assert (HN : forall x : N, pretty x <> EmptyString).
  { intros x. unfold pretty, pretty_N. destruct (decide (x = 0%N)); [discriminate|].
    rewrite pretty_N_go_step by lia. apply pretty_N_go_nonempty. discriminate. }
  destruct n as [|p|p]; unfold pretty, pretty_Z.
  - discriminate.
  - apply HN.
  - discriminate.
Qed.

Lemma ToString_kept v :
  (exists n, v = SNum n) \/ (exists b, v = SBool b) ->
  dropped v = dropped (SStr (ToString v)).
Proof.
  intros [[n ->]|[[|] ->]]; simpl; try reflexivity.
  destruct (pretty (int_value n)) eqn:E; [|reflexivity].
  now destruct (pretty_Z_nonempty (int_value n)).
Qed.

Lemma prop_middle_rel (l1 l2 : object) k v w k' (R : scalar -> scalar -> Prop) :
  (forall x, R x x) -> R v w ->
  R (prop (l1 ++ (k, v) :: l2) k') (prop (l1 ++ (k, w) :: l2) k').
Proof.
  intros Hrefl Hvw. induction l1 as [|[k1 v1] l1 IH]; simpl.
  - destruct (String.eqb k k'); auto.
  - destruct (String.eqb k1 k'); auto.
Qed.

(** X5: a safe integer or a boolean is signed as its text: the
    signature is the same whether the value arrives as such (a JSON
    body) or as the string of its decimal numeral (a form body). *)
Theorem calculateSign_number_as_text (l1 l2 : object) k v (key : string) :
  (exists n, v = SNum n) \/ (exists b, v = SBool b) ->
  calculateSign (l1 ++ (k, v) :: l2) key
  = calculateSign (l1 ++ (k, SStr (ToString v)) :: l2) key.
Proof.
  intros Hv. unfold calculateSign, fullStr. do 3 f_equal.
  apply signStr_ext.
  - unfold Object_keys. now rewrite !map_app.
  - intros k' _.
    apply (prop_middle_rel l1 l2 k v (SStr (ToString v)) k'
             (fun x y => dropped x = dropped y /\ ToString x = ToString y)).
    + auto.
    + split; [now apply ToString_kept|reflexivity].
Qed.

Lemma calculateSign_number_as_text_witness :
  calculateSign
    [("out_trade_no", SStr "VIP_u1_1"); ("total_fee", SNum (SafeInt 6900 eq_refl));
     ("transaction_id", SStr "tx1")] "secret"
  = calculateSign
      [("out_trade_no", SStr "VIP_u1_1"); ("total_fee", SStr (ToString (SNum (SafeInt 6900 eq_refl))));
       ("transaction_id", SStr "tx1")] "secret".
Proof.
  apply (calculateSign_number_as_text [("out_trade_no", SStr "VIP_u1_1")]
           [("transaction_id", SStr "tx1")] "total_fee" (SNum (SafeInt 6900 eq_refl)) "secret").
  left. eexists. reflexivity.
Defined.

(** ** What an answer tells *)

Lemma grant_vip_token t2 order userId productType st :
  fst (grant_vip t2 order userId productType st) = Sent "SUCCESS" \/
  fst (grant_vip t2 order userId productType st) = Thrown.
Proof.
  unfold grant_vip. destruct (AV.get_user st userId); [|now right].
  destruct (push_order_id _ _); [now left|now right].
Qed.

(** X6: whatever the body and the store, the response is the text
    [SUCCESS] or the text [FAIL]. *)
Theorem response_vocabulary key t1 t2 body st :
  fst (handlePaymentCallback key t1 t2 body st) = "SUCCESS" \/
  fst (handlePaymentCallback key t1 t2 body st) = "FAIL".
Proof.
  unfold handlePaymentCallback, run.
  destruct (sign_differs _ _); [now right|].
  destruct (JSON.parse _) as [d|]; [|now right].
  destruct (destructure d) as [[userId productType]|]; [|now right].
  destruct (AV.first _ _) as [[i order]|]; [|now right].
  destruct (is_str (AV.get order "status") "paid"); [now left|].
  destruct (is_str (AV.get order "status") "pending"); [|now left].
  match goal with
  | |- context [grant_vip ?a ?b ?c ?d ?e] =>
      destruct (grant_vip_token a b c d e) as [H|H];
      destruct (grant_vip a b c d e) as [[tok|] st']; simpl in *
  end; try discriminate; [|now right].
  injection H as ->. now left.
Qed.

(** X7: a callback is answered [SUCCESS], or changes the store, only if
    it carries the correct signature, its attachment decodes and the
    store holds an order under its merchant order number. *)
Theorem acknowledged_only_if_authentic key t1 t2 body st :
  fst (handlePaymentCallback key t1 t2 body st) = "SUCCESS" \/
  snd (handlePaymentCallback key t1 t2 body st) <> st ->
  correctly_signed key body /\
  (exists userId productType, decodes body userId productType) /\
  (exists i order, finds st body i order).
Proof.
  unfold handlePaymentCallback, run, correctly_signed, decodes, finds.
  destruct (sign_differs _ _) eqn:Hs;
    [intros [H|H]; [discriminate|now destruct H]|].
  destruct (JSON.parse _) as [d|] eqn:Hp;
    [|intros [H|H]; [discriminate|now destruct H]].
  destruct (destructure d) as [[userId productType]|] eqn:Hd;
    [|intros [H|H]; [discriminate|now destruct H]].
  destruct (AV.first _ _) as [[i order]|] eqn:Hf;
    [|intros [H|H]; [discriminate|now destruct H]].
  intros _. split; [now apply sign_differs_false|]. split; eauto.
Qed.

Lemma acknowledged_only_if_authentic_witness :
  correctly_signed Scenario.key Scenario.body /\
  (exists userId productType, decodes Scenario.body userId productType) /\
  (exists i order, finds (Scenario.store "pending") Scenario.body i order).
Proof.
  apply (acknowledged_only_if_authentic Scenario.key 1000 1001 Scenario.body
           (Scenario.store "pending")).
  left. vm_compute. reflexivity.
Defined.

(** ** Orders that are already paid, attachments that are not there *)

(** X8: a correctly signed callback for an order that is already [paid]
    is answered [SUCCESS] and changes nothing in the store. *)
Theorem paid_order_acknowledged key t1 t2 body st i order userId productType :
  correctly_signed key body ->
  decodes body userId productType ->
  finds st body i order ->
  AV.get order "status" = JStr "paid" ->
  handlePaymentCallback key t1 t2 body st = ("SUCCESS", st).
Proof.
  intros Hs Hd Hf Hst. unfold handlePaymentCallback.
  rewrite (run_accepted _ _ _ _ _ _ _ _ _ Hs Hd Hf), Hst. reflexivity.
Qed.

Lemma paid_order_acknowledged_witness :
  handlePaymentCallback Scenario.key 1000 1001 Scenario.body
    (Scenario.store "paid")
  = ("SUCCESS", Scenario.store "paid").
Proof.
  apply (paid_order_acknowledged _ _ _ _ _ 0%nat (Scenario.order "paid")
           (JStr "u1") (JStr "lifetime")).
  - vm_compute. reflexivity.
  - eexists. split; vm_compute; reflexivity.
  - vm_compute. reflexivity.
  - vm_compute. reflexivity.
Defined.

(** X9: a callback without attachment, or whose attachment is the JSON
    text [null], is answered [FAIL] with the store as it was. *)
Theorem absent_or_null_attachment_rejected key t1 t2 body st :
  attach body = SUndefined \/
  JSON.parse (ToString (attach body)) = Some JNull ->
  handlePaymentCallback key t1 t2 body st = ("FAIL", st).
Proof.
  intros H. unfold handlePaymentCallback, run.
  destruct (sign_differs _ _); [reflexivity|].
  destruct H as [H|H]; rewrite H; reflexivity.
Qed.

Lemma absent_or_null_attachment_rejected_witness :
  handlePaymentCallback Scenario.key 1000 1001
    {| out_trade_no := SStr "VIP_u1_1"; transaction_id := SStr "tx1";
       total_fee := SStr "6900"; attach := SNull;
       sign := SStr "806020DB2C0961EF584575BC1F7CE17B" |}
    (Scenario.store "pending")
  = ("FAIL", Scenario.store "pending").
Proof.
  apply absent_or_null_attachment_rejected. right. vm_compute. reflexivity.
Defined.

(** ** A user record whose [vipOrderIds] is no array *)

Lemma push_not_array v oid :
  falsy v = false -> (forall l, v <> JArr l) -> push_order_id v oid = None.
Proof.
  intros Hf Ha. unfold push_order_id. rewrite Hf.
  destruct v; try reflexivity. now destruct (Ha items).
Qed.

(** X10: when the user record holds under [vipOrderIds] a value that is
    neither an array nor skipped by [||], the order is saved as [paid],
    then [push] throws: the user record is not written and the answer
    is [FAIL]. *)
Theorem grant_fails_after_payment
    key t1 t2 body st i order uid productType a v :
  correctly_signed key body ->
  decodes body (JStr uid) productType ->
  finds st body i order ->
  AV.get order "status" = JStr "pending" ->
  AV.users st !! uid = Some a ->
  a !! "vipOrderIds" = Some v ->
  falsy v = false ->
  (forall l, v <> JArr l) ->
  handlePaymentCallback key t1 t2 body st
  = ("FAIL",
     {| AV.orders :=
          <[i := paid_order order (transaction_id body) t1]> (AV.orders st);
        AV.users := AV.users st |}).
Proof.
  intros Hs Hd Hf Hst Hu Hv Hfalsy Harr. unfold handlePaymentCallback.
  rewrite (run_accepted _ _ _ _ _ _ _ _ _ Hs Hd Hf), Hst. simpl.
  unfold grant_vip. simpl. rewrite Hu.
  set (u := grant_fields _ _ _).
  assert (Hget : AV.get u "vipOrderIds" = v).
  { unfold u, grant_fields. destruct (is_str _ _);
      rewrite !get_set_ne by discriminate; unfold AV.get; simpl;
      now rewrite Hv. }
  now rewrite Hget, push_not_array.
Qed.

Lemma grant_fails_after_payment_witness :
  let st :=
    {| AV.orders := [Scenario.order "pending"];
       AV.users := <["u1" := <["vipOrderIds" := JStr "o0"]> Scenario.user]> ∅ |} in
  handlePaymentCallback Scenario.key 1000 1001 Scenario.body st
  = ("FAIL",
     {| AV.orders :=
          <[0%nat := paid_order (Scenario.order "pending")
                       (transaction_id Scenario.body) 1000]> (AV.orders st);
        AV.users := AV.users st |}).
Proof.
  intros st.
  apply (grant_fails_after_payment Scenario.key 1000 1001 Scenario.body st
           0%nat (Scenario.order "pending") "u1" (JStr "lifetime")
           (<["vipOrderIds" := JStr "o0"]> Scenario.user) (JStr "o0")).
  - vm_compute. reflexivity.
  - eexists. split; vm_compute; reflexivity.
  - vm_compute. reflexivity.
  - vm_compute. reflexivity.
  - vm_compute. reflexivity.
  - vm_compute. reflexivity.
  - reflexivity.
  - intros l. discriminate.
Defined.

(** ** What no delivery touches *)

Lemma deliver_length key st d :
  length (AV.orders (deliver key st d)) = length (AV.orders st).
Proof.
  destruct (deliver_orders key st d) as [->|(i & o & _ & _ & ->)];
    [reflexivity|apply length_insert].
Qed.

(** X11: through any sequence of deliveries the [Order] class keeps its
    records in place and in number; every record keeps its identifier
    and every attribute other than [status], [transactionId] and
    [paidAt] ([outTradeNo], [amount], [productType], ... ). *)
Theorem orders_kept key ds st :
  length (AV.orders (deliver_all key ds st)) = length (AV.orders st) /\
  forall i o,
    AV.orders st !! i = Some o ->
    exists o',
      AV.orders (deliver_all key ds st) !! i = Some o' /\
      AV.id o' = AV.id o /\
      forall k, k <> "status" -> k <> "transactionId" -> k <> "paidAt" ->
                AV.get o' k = AV.get o k.
Proof.
  revert st. induction ds as [|d ds IH]; intros st; simpl.
  - split; [reflexivity|]. intros i o Hl. exists o. auto.
  - destruct (IH (deliver key st d)) as [IHl IHo]. split.
    + now rewrite IHl, deliver_length.
    + intros i o Hl.
      destruct (deliver_order_at key st d i o Hl) as (o1 & Hl1 & Hstep).
      destruct (IHo i o1 Hl1) as (o' & Hl' & Hid & Hk).
      exists o'. split; [exact Hl'|].
      destruct Hstep as [->|[_ ->]]; [auto|].
      split; [exact Hid|]. intros k H1 H2 H3.
      rewrite Hk by assumption. now apply get_paid_order_other.
Qed.

(** ** [vipOrderIds] only grows *)

Lemma deliver_user_ids key st d uid a ids :
  AV.users st !! uid = Some a ->
  a !! "vipOrderIds" = Some (JArr ids) ->
  exists a' more,
    AV.users (deliver key st d) !! uid = Some a' /\
    a' !! "vipOrderIds" = Some (JArr (ids ++ more)) /\
    (length more <= 1)%nat.
Proof.
  intros Hu Hids.
  assert (Hsame : forall st', AV.users st' = AV.users st ->
            exists a' more, AV.users st' !! uid = Some a' /\
              a' !! "vipOrderIds" = Some (JArr (ids ++ more)) /\
              (length more <= 1)%nat).
  { intros st' ->. exists a, []. rewrite app_nil_r. simpl. auto. }
  unfold deliver, handlePaymentCallback, run.
  destruct (sign_differs _ _); [now apply Hsame|].
  destruct (JSON.parse _) as [v|]; [|now apply Hsame].
  destruct (destructure v) as [[userId productType]|]; [|now apply Hsame].
  destruct (AV.first _ _) as [[i order]|]; [|now apply Hsame].
  destruct (is_str (AV.get order "status") "paid"); [now apply Hsame|].
  destruct (is_str (AV.get order "status") "pending"); [|now apply Hsame].
  rewrite set_paid. unfold grant_vip. rewrite get_user_save_order.
  destruct (AV.get_user st userId) as [u|] eqn:Hget; [|now apply Hsame].
  apply get_user_Some in Hget as (uid' & -> & Hid & Hu').
  set (u' := grant_fields _ u productType).
  assert (Hattr : forall k, k <> "vipType" -> k <> "vipPurchaseTime" ->
                    k <> "vipExpireTime" ->
                    AV.attributes u' !! k = AV.attributes u !! k).
  { intros k H1 H2 H3. unfold u', grant_fields.
    destruct (is_str _ _); now rewrite !lookup_set_ne by congruence. }
  assert (Hid' : AV.id u' = uid').
  { unfold u', grant_fields. destruct (is_str _ _); now rewrite !id_set. }
  destruct (push_order_id _ _) as [orderIds|] eqn:Hpush; [|now apply Hsame].
  simpl. rewrite Hid'.
  destruct (decide (uid' = uid)) as [->|Hne].
  - assert (AV.attributes u = a) as Ha by congruence.
    unfold AV.get in Hpush. rewrite Hattr in Hpush by discriminate.
    rewrite Ha, Hids in Hpush. simpl in Hpush. injection Hpush as <-.
    eexists. exists [JStr (AV.id order)].
    rewrite lookup_insert_eq. split; [reflexivity|].
    split; [apply lookup_insert_eq|simpl; lia].
  - exists a, []. rewrite lookup_insert_ne by assumption.
    rewrite app_nil_r. simpl. auto.
Qed.

(** X12: [vipOrderIds] only grows: through any sequence of deliveries a
    user stays in the store and an array held under [vipOrderIds]
    stays a prefix of the later one, which is longer by at most one
    entry per delivery. *)
Theorem vipOrderIds_append_only key ds st uid a ids :
  AV.users st !! uid = Some a ->
  a !! "vipOrderIds" = Some (JArr ids) ->
  exists a' more,
    AV.users (deliver_all key ds st) !! uid = Some a' /\
    a' !! "vipOrderIds" = Some (JArr (ids ++ more)) /\
    (length more <= length ds)%nat.
Proof.
  revert st a ids. induction ds as [|d ds IH]; intros st a ids Hu Hids; simpl.
  - exists a, []. rewrite app_nil_r. simpl. auto.
  - destruct (deliver_user_ids key st d uid a ids Hu Hids)
      as (a1 & m1 & Hu1 & Hids1 & Hlen1).
    destruct (IH _ _ _ Hu1 Hids1) as (a' & m2 & Hu' & Hids' & Hlen2).
    exists a', (m1 ++ m2). rewrite app_assoc, length_app.
    split; [exact Hu'|]. split; [exact Hids'|lia].
Qed.

(** ** The attachment comes back as it was sent *)

Lemma string_body_quote_char c r acc :
  JSON.string_body (quote_char c ++ r) acc = JSON.string_body r (c :: acc).
Proof.
  destruct c as [[] [] [] [] [] [] [] []]; reflexivity.
Qed.

Lemma string_body_quoted s r acc :
  JSON.string_body (flat_map quote_char s ++ JSON.chr 34 :: r) acc
  = Some (string_of_list_ascii (rev acc ++ s), r).
Proof.
  revert acc. induction s as [|c s IH]; intros acc.
  - simpl. now rewrite app_nil_r.
  - simpl flat_map. rewrite <- app_assoc, string_body_quote_char, IH.
    simpl. now rewrite <- app_assoc.
Qed.

Example stringify_scenario :
  stringify_attach "u1" "lifetime" = Scenario.attachment.
Proof. vm_compute. reflexivity. Qed.

Lemma quote_app s r :
  quote s ++ r
  = JSON.chr 34 :: flat_map quote_char (list_ascii_of_string s) ++ JSON.chr 34 :: r.
Proof. unfold quote. simpl. now rewrite <- app_assoc. Qed.

Lemma value_quoted n s r :
  JSON.value (S n) (quote s ++ r) = Some (JStr s, r).
Proof.
  rewrite quote_app.
  transitivity
    (match JSON.string_body
             (flat_map quote_char (list_ascii_of_string s) ++ JSON.chr 34 :: r) []
     with
     | Some (t, r') => Some (JStr t, r')
     | None => None
     end); [reflexivity|].
  rewrite string_body_quoted. simpl. now rewrite string_of_list_ascii_of_string.
Qed.

Lemma members_quoted_next n k v rest acc :
  JSON.members (S (S n))
    (quote k ++ JSON.chr 58 :: quote v ++ JSON.chr 44 :: rest) acc
  = JSON.members (S n) rest ((k, JStr v) :: acc).
Proof.
  rewrite quote_app.
  transitivity
    (match JSON.string_body
             (flat_map quote_char (list_ascii_of_string k)
              ++ JSON.chr 34 :: JSON.chr 58 :: quote v ++ JSON.chr 44 :: rest) []
     with
     | None => None
     | Some (k', r1) =>
         match JSON.skip_ws r1 with
         | c :: r2 =>
             if JSON.ch c 58 then
               match JSON.value (S n) r2 with
               | None => None
               | Some (v', r3) =>
                   match JSON.skip_ws r3 with
                   | d :: r4 =>
                       if JSON.ch d 44 then JSON.members (S n) r4 ((k', v') :: acc)
                       else if JSON.ch d 125
                       then Some (JObj (rev ((k', v') :: acc)), r4)
                       else None
                   | [] => None
                   end
               end
             else None
         | [] => None
         end
     end); [reflexivity|].
  rewrite string_body_quoted.
  change (JSON.skip_ws (JSON.chr 58 :: quote v ++ JSON.chr 44 :: rest))
    with (JSON.chr 58 :: quote v ++ JSON.chr 44 :: rest).
  change (JSON.ch (JSON.chr 58) 58) with true. cbv iota.
  rewrite value_quoted.
  change (JSON.skip_ws (JSON.chr 44 :: rest)) with (JSON.chr 44 :: rest).
  change (JSON.ch (JSON.chr 44) 44) with true. cbv iota.
  cbn [rev app]. now rewrite string_of_list_ascii_of_string.
Qed.

Lemma members_quoted_last n k v rest acc :
  JSON.members (S (S n))
    (quote k ++ JSON.chr 58 :: quote v ++ JSON.chr 125 :: rest) acc
  = Some (JObj (rev ((k, JStr v) :: acc)), rest).
Proof.
  rewrite quote_app.
  transitivity
    (match JSON.string_body
             (flat_map quote_char (list_ascii_of_string k)
              ++ JSON.chr 34 :: JSON.chr 58 :: quote v ++ JSON.chr 125 :: rest) []
     with
     | None => None
     | Some (k', r1) =>
         match JSON.skip_ws r1 with
         | c :: r2 =>
             if JSON.ch c 58 then
               match JSON.value (S n) r2 with
               | None => None
               | Some (v', r3) =>
                   match JSON.skip_ws r3 with
                   | d :: r4 =>
                       if JSON.ch d 44 then JSON.members (S n) r4 ((k', v') :: acc)
                       else if JSON.ch d 125
                       then Some (JObj (rev ((k', v') :: acc)), r4)
                       else None
                   | [] => None
                   end
               end
             else None
         | [] => None
         end
     end); [reflexivity|].
  rewrite string_body_quoted.
  change (JSON.skip_ws (JSON.chr 58 :: quote v ++ JSON.chr 125 :: rest))
    with (JSON.chr 58 :: quote v ++ JSON.chr 125 :: rest).
  change (JSON.ch (JSON.chr 58) 58) with true. cbv iota.
  rewrite value_quoted.
  change (JSON.skip_ws (JSON.chr 125 :: rest)) with (JSON.chr 125 :: rest).
  change (JSON.ch (JSON.chr 125) 44) with false.
  change (JSON.ch (JSON.chr 125) 125) with true. cbv iota.
  cbn [rev app]. now rewrite string_of_list_ascii_of_string.
Qed.

Lemma stringified_parses (userId productType : string) :
  JSON.parse (stringify_attach userId productType)
  = Some (JObj [("userId", JStr userId); ("productType", JStr productType)]).
Proof.
  apply (parse_fuel_enough _ 4 _ []); [|reflexivity].
  unfold stringify_attach. rewrite list_ascii_of_string_of_list_ascii.
  transitivity
    (JSON.members 3
       (quote "userId" ++ JSON.chr 58 :: quote userId ++ JSON.chr 44 ::
        quote "productType" ++ JSON.chr 58 :: quote productType ++
        [JSON.chr 125]) []); [reflexivity|].
  rewrite members_quoted_next, members_quoted_last. reflexivity.
Qed.

Lemma decodes_stringified body userId productType :
  attach body = SStr (stringify_attach userId productType) ->
  decodes body (JStr userId) (JStr productType).
Proof.
  intros H. unfold decodes. rewrite H. simpl.
  rewrite stringified_parses. eauto.
Qed.

(** X13: the attachment [createOrder] builds with [JSON.stringify] from
    any user identifier and product type is decoded by the handler
    ([JSON.parse], then destructuring) into exactly these two strings. *)
Theorem attachment_round_trip (userId productType : string) :
  exists attachData,
    JSON.parse (stringify_attach userId productType) = Some attachData /\
    destructure attachData = Some (JStr userId, JStr productType).
Proof.
  exists (JObj [("userId", JStr userId); ("productType", JStr productType)]).
  split; [apply stringified_parses|reflexivity].
Qed.

(** X14: a correctly signed callback that brings back the attachment
    [createOrder] sent for user [uid] and product type [productType],
    for a pending order, is answered [SUCCESS], saves the order as
    paid and grants the user: [vipType] is the product type,
    [vipOrderIds] gets the order's identifier, and [vipExpireTime] is
    null for [lifetime]. *)
Theorem sent_attachment_grants key t1 t2 body st i order uid productType a ids :
  correctly_signed key body ->
  attach body = SStr (stringify_attach uid productType) ->
  finds st body i order ->
  AV.get order "status" = JStr "pending" ->
  AV.users st !! uid = Some a ->
  stored_ids (default JUndefined (a !! "vipOrderIds")) = Some ids ->
  exists a',
    handlePaymentCallback key t1 t2 body st
    = ("SUCCESS",
       {| AV.orders :=
            <[i := paid_order order (transaction_id body) t1]> (AV.orders st);
          AV.users := <[uid := a']> (AV.users st) |}) /\
    a' !! "vipType" = Some (JStr productType) /\
    a' !! "vipOrderIds" = Some (JArr (ids ++ [JStr (AV.id order)])) /\
    (productType = "lifetime" -> a' !! "vipExpireTime" = Some JNull).
Proof.
  intros Hs Ha Hf Hst Hu Hids. unfold handlePaymentCallback.
  rewrite (run_accepted _ _ _ _ _ _ _ _ _ Hs (decodes_stringified _ _ _ Ha) Hf).
  rewrite Hst. simpl.
  rewrite (grant_vip_existing _ _ _ _ _ a ids); [|exact Hu|exact Hids].
  simpl. eexists. split; [reflexivity|].
  unfold grant_fields. simpl.
  destruct (String.eqb_spec productType "lifetime") as [->|Hne]; simpl.
  - repeat split; intros;
      repeat (rewrite lookup_insert_eq || rewrite lookup_insert_ne by discriminate);
      reflexivity.
  - repeat split; intros;
      repeat (rewrite lookup_insert_eq || rewrite lookup_insert_ne by discriminate);
      try reflexivity; congruence.
Qed.

Lemma sent_attachment_grants_witness :
  exists a',
    handlePaymentCallback Scenario.key 1000 1001
      (Scenario.callback (stringify_attach "u1" "lifetime"))
      (Scenario.store "pending")
    = ("SUCCESS",
       {| AV.orders :=
            <[0%nat := paid_order (Scenario.order "pending") (SStr "tx1") 1000]>
              (AV.orders (Scenario.store "pending"));
          AV.users := <["u1" := a']> (AV.users (Scenario.store "pending")) |}) /\
    a' !! "vipType" = Some (JStr "lifetime") /\
    a' !! "vipOrderIds" = Some (JArr ([] ++ [JStr "o1"])) /\
    ("lifetime" = "lifetime" -> a' !! "vipExpireTime" = Some JNull).
Proof.
  apply (sent_attachment_grants Scenario.key 1000 1001
           (Scenario.callback (stringify_attach "u1" "lifetime"))
           (Scenario.store "pending") 0%nat (Scenario.order "pending")
           "u1" "lifetime" Scenario.user []).
  - vm_compute. reflexivity.
  - reflexivity.
  - vm_compute. reflexivity.
  - vm_compute. reflexivity.
  - vm_compute. reflexivity.
  - vm_compute. reflexivity.
Defined.

(** ** [queryOrder] answers the buyer only *)

Lemma order_of_true orderId uid o :
  order_of orderId uid o = true ->
  orderId = JStr (AV.id o) /\ AV.get o "userId" = JStr uid.
Proof.
  unfold order_of. intros H. apply andb_prop in H as [H1 H2].
  split; [now apply is_str_true|]. now apply equalTo_true in H2.
Qed.

(** X15: when [queryOrder] answers with a view, the caller is logged
    in, the store holds an order with the requested identifier whose
    [userId] is the caller, and the view shows that order's [status],
    [productType] and [amount]. *)
Theorem queryOrder_owner_only te re orderId currentUser st view :
  queryOrder te re orderId currentUser st = inl view ->
  exists uid i order,
    currentUser = Some uid /\
    AV.orders st !! i = Some order /\
    orderId = JStr (AV.id order) /\
    AV.get order "userId" = JStr uid /\
    view_status view = AV.get order "status" /\
    view_productType view = AV.get order "productType" /\
    view_amount view = AV.get order "amount".
Proof.
  unfold queryOrder. destruct currentUser as [uid|]; [|discriminate].
  destruct (falsy orderId); [discriminate|].
  destruct (AV.first st _) as [[i order]|] eqn:Hf; [|discriminate].
  destruct (paidAt_text te re _) as [p|]; [|discriminate].
  intros [= <-]. apply first_from_lookup in Hf as (_ & Hl & Hp).
  rewrite Nat.sub_0_r in Hl. apply order_of_true in Hp as [Hid Hu].
  exists uid, i, order. simpl. auto 10.
Qed.

(** X16: an order of another user is not told apart from a missing
    one: when no order with the requested identifier belongs to the
    caller, [queryOrder] throws the error for an order that does not
    exist. *)
Theorem queryOrder_hides_foreign_orders te re orderId uid st :
  falsy orderId = false ->
  (forall o, o ∈ AV.orders st -> orderId = JStr (AV.id o) ->
             AV.get o "userId" <> JStr uid) ->
  queryOrder te re orderId (Some uid) st = inr (Error None "订单不存在").
Proof.
  intros Hid Hforeign. unfold queryOrder. rewrite Hid.
  unfold AV.first. rewrite first_from_none; [reflexivity|].
  apply Forall_forall. intros o Ho.
  destruct (order_of orderId uid o) eqn:Hp; [|reflexivity].
  apply order_of_true in Hp as [Hi Hu]. now destruct (Hforeign o Ho Hi).
Qed.

(** ** After the callback, the buyer sees the order paid *)

Lemma first_from_at k (os : list AV.Object) p i o :
  os !! i = Some o ->
  p o = true ->
  (forall j o', (j < i)%nat -> os !! j = Some o' -> p o' = false) ->
  AV.first_from k os p = Some ((k + i)%nat, o).
Proof.
  revert k i. induction os as [|x os IH]; intros k i Hl Hp Hbefore.
  - discriminate.
  - destruct i as [|i]; simpl in *.
    + injection Hl as ->. rewrite Hp. f_equal. f_equal. lia.
    + rewrite (Hbefore 0%nat x) by (reflexivity || lia).
      rewrite (IH (S k) i Hl Hp).
      * f_equal. f_equal. lia.
      * intros j o' Hj Ho'. apply (Hbefore (S j) o'); [lia|exact Ho'].
Qed.

Lemma append_nonempty s t : t <> EmptyString -> s +:+ t <> EmptyString.
Proof. destruct s; simpl; [auto|discriminate]. Qed.

Lemma toISOString_nonempty t : toISOString t <> EmptyString.
Proof.
  unfold toISOString. destruct (civil_from_days _) as [[y m] d].
  repeat (apply append_nonempty). discriminate.
Qed.

(** X17: once the callback for a pending order has run, the buyer's
    [queryOrder] on that order shows the status [paid] and, as
    [paidAt], the ISO text of the instant the handler read. *)
Theorem paid_order_seen_by_buyer
    te re key t1 t2 body st i order userId productType buyer :
  correctly_signed key body ->
  decodes body userId productType ->
  finds st body i order ->
  AV.get order "status" = JStr "pending" ->
  AV.get order "userId" = JStr buyer ->
  AV.id order <> EmptyString ->
  (forall j o', (j < i)%nat -> AV.orders st !! j = Some o' ->
                AV.id o' <> AV.id order) ->
  Z.abs t1 <= 8640000000000000 ->
  queryOrder te re (JStr (AV.id order)) (Some buyer)
    (snd (handlePaymentCallback key t1 t2 body st))
  = inl {| view_status := JStr "paid";
           view_productType := AV.get order "productType";
           view_amount := AV.get order "amount";
           view_paidAt := JStr (toISOString t1) |}.
Proof.
  intros Hs Hd Hf Hst Hbuyer Hid Hfirst Hiso.
  pose proof (finds_lookup _ _ _ _ Hf) as [Hl _].
  unfold queryOrder.
  assert (Hfalsy : falsy (JStr (AV.id order)) = false).
  { simpl. destruct (AV.id order); [congruence|reflexivity]. }
  rewrite Hfalsy. unfold AV.first.
  rewrite (orders_accepted _ _ _ _ _ _ _ _ _ Hs Hd Hf Hst).
  rewrite (first_from_at 0 _ _ i (paid_order order (transaction_id body) t1)).
  - rewrite get_paid_order_status.
    rewrite (get_paid_order_other _ _ _ "productType") by discriminate.
    rewrite (get_paid_order_other _ _ _ "amount") by discriminate.
    rewrite get_paid_order_paidAt. simpl.
    apply Z.leb_le in Hiso. rewrite Hiso.
    destruct (toISOString t1) eqn:E; [|reflexivity].
    now destruct (toISOString_nonempty t1).
  - apply list_lookup_insert_eq. now apply lookup_lt_Some in Hl.
  - unfold order_of, AV.equalTo. simpl.
    rewrite get_paid_order_other by discriminate. rewrite Hbuyer.
    now rewrite !String.eqb_refl.
  - intros j o' Hj Ho'. rewrite list_lookup_insert_ne in Ho' by lia.
    unfold order_of. simpl.
    destruct (String.eqb_spec (AV.id order) (AV.id o')) as [E|_]; [|reflexivity].
    symmetry in E. now destruct (Hfirst j o' Hj Ho').
Qed.

Lemma queryOrder_owner_only_witness :
  exists uid i order,
    Some "u1" = Some uid /\
    AV.orders (bought_store "paid") !! i = Some order /\
    JStr "o1" = JStr (AV.id order) /\
    AV.get order "userId" = JStr uid /\
    view_status
      {| view_status := JStr "paid"; view_productType := JStr "lifetime";
         view_amount := JNum 6900 0; view_paidAt := JNull |}
    = AV.get order "status" /\
    view_productType
      {| view_status := JStr "paid"; view_productType := JStr "lifetime";
         view_amount := JNum 6900 0; view_paidAt := JNull |}
    = AV.get order "productType" /\
    view_amount
      {| view_status := JStr "paid"; view_productType := JStr "lifetime";
         view_amount := JNum 6900 0; view_paidAt := JNull |}
    = AV.get order "amount".
Proof.
  apply (queryOrder_owner_only "te" "re" (JStr "o1") (Some "u1")
           (bought_store "paid")).
  vm_compute. reflexivity.
Defined.

Lemma queryOrder_hides_foreign_orders_witness :
  queryOrder "te" "re" (JStr "o1") (Some "u2") (bought_store "paid")
  = inr (Error None "订单不存在").
Proof.
  apply queryOrder_hides_foreign_orders; [reflexivity|].
  intros o Ho _. apply list_elem_of_singleton in Ho as ->.
  vm_compute. discriminate.
Defined.

Lemma paid_order_seen_by_buyer_witness :
  queryOrder "te" "re" (JStr (AV.id (bought_order "pending"))) (Some "u1")
    (snd (handlePaymentCallback Scenario.key 1730534400123 1730534400200
            Scenario.body (bought_store "pending")))
  = inl {| view_status := JStr "paid";
           view_productType := AV.get (bought_order "pending") "productType";
           view_amount := AV.get (bought_order "pending") "amount";
           view_paidAt := JStr (toISOString 1730534400123) |}.
Proof.
  apply (paid_order_seen_by_buyer "te" "re" Scenario.key 1730534400123
           1730534400200 Scenario.body (bought_store "pending") 0%nat
           (bought_order "pending") (JStr "u1") (JStr "lifetime") "u1").
  - vm_compute. reflexivity.
  - eexists. split; vm_compute; reflexivity.
  - vm_compute. reflexivity.
  - vm_compute. reflexivity.
  - vm_compute. reflexivity.
  - vm_compute. discriminate.
  - intros j o' Hj. lia.
  - vm_compute. discriminate.
Defined.

Example toISOString_vectors :
  map toISOString [0; -1; 951782400000; 1730534400123; 253402300800000]
  = ["1970-01-01T00:00:00.000Z"; "1969-12-31T23:59:59.999Z";
     "2000-02-29T00:00:00.000Z"; "2024-11-02T08:00:00.123Z";
     "+010000-01-01T00:00:00.000Z"].
Proof. vm_compute. reflexivity. Qed.

(** ** Merchant order numbers tell orders apart *)

Lemma pretty_N_go_underscore x s :
  ~ In "_"%char (list_ascii_of_string s) ->
  ~ In "_"%char (list_ascii_of_string (pretty_N_go x s)).
Proof.
  revert s. induction (N.lt_wf_0 x) as [x _ IH]; intros s Hs.
  assert (x = 0 \/ 0 < x)%N as [->|Hx] by lia.
  - now rewrite pretty_N_go_0.
  - rewrite pretty_N_go_step by assumption. apply IH; [now apply N.div_lt|].
    simpl. intros [H|H]; [|tauto].
    revert H. unfold pretty_N_char. repeat case_match; discriminate.
Qed.

Lemma pretty_Z_underscore (n : Z) :
  ~ In "_"%char (list_ascii_of_string (pretty n)).
Proof.
  assert (HN : forall x : N, ~ In "_"%char (list_ascii_of_string (pretty x))).
  { intros x. unfold pretty, pretty_N. destruct (decide (x = 0%N)).
    - simpl. intros [H|[]]. discriminate.
    - apply pretty_N_go_underscore. simpl. tauto. }
  destruct n as [|p|p]; unfold pretty, pretty_Z.
  - simpl. intros [H|[]]. discriminate.
  - apply HN.
  - simpl. intros [H|H]; [discriminate|]. now apply (HN (Npos p)).
Qed.

Lemma underscore_in_middle a b :
  In "_"%char (list_ascii_of_string (a +:+ String "_" b)).
Proof. induction a; simpl; auto. Qed.

Lemma split_at_last_underscore u1 u2 d1 d2 :
  ~ In "_"%char (list_ascii_of_string d1) ->
  ~ In "_"%char (list_ascii_of_string d2) ->
  u1 +:+ String "_" d1 = u2 +:+ String "_" d2 ->
  u1 = u2 /\ d1 = d2.
Proof.
  intros H1 H2. revert u2. induction u1 as [|c u1 IH]; intros [|c' u2]; simpl.
  - intros [= ->]. auto.
  - intros [= <- ->]. destruct H1. apply underscore_in_middle.
  - intros [= -> <-]. destruct H2. apply underscore_in_middle.
  - intros [= -> H]. apply IH in H as [-> ->]. auto.
Qed.

Lemma outTradeNo_of_inj u1 n1 u2 n2 :
  outTradeNo_of u1 n1 = outTradeNo_of u2 n2 -> u1 = u2 /\ n1 = n2.
Proof.
  unfold outTradeNo_of. simpl. intros [= H].
  apply split_at_last_underscore in H as [-> H]; auto using pretty_Z_underscore.
  split; [reflexivity|]. now apply (inj pretty).
Qed.

(** X18: merchant order numbers built for different users, or for the
    same user at different milliseconds, are different. *)
Theorem outTradeNo_distinct u1 n1 u2 n2 :
  u1 <> u2 \/ n1 <> n2 -> outTradeNo_of u1 n1 <> outTradeNo_of u2 n2.
Proof.
  intros H E. apply outTradeNo_of_inj in E as [-> ->]. destruct H; congruence.
Qed.

Lemma outTradeNo_distinct_witness :
  outTradeNo_of "u1" 1730534400123 <> outTradeNo_of "u1_1730534400" 123.
Proof.
  apply outTradeNo_distinct. left. discriminate.
Defined.

(** ** The scenario, delivered twice *)

Lemma orders_kept_witness :
  let ds :=
    [ {| d_body := Scenario.body; d_paid_now := 1000; d_grant_now := 1001 |};
      {| d_body := Scenario.body; d_paid_now := 2000; d_grant_now := 2001 |} ] in
  exists o',
    AV.orders (deliver_all Scenario.key ds (Scenario.store "pending")) !! 0%nat
    = Some o' /\
    AV.id o' = AV.id (Scenario.order "pending") /\
    forall k, k <> "status" -> k <> "transactionId" -> k <> "paidAt" ->
              AV.get o' k = AV.get (Scenario.order "pending") k.
Proof.
  intros ds.
  apply (proj2 (orders_kept Scenario.key ds (Scenario.store "pending")) 0%nat
           (Scenario.order "pending")).
  reflexivity.
Defined.

Lemma vipOrderIds_append_only_witness :
  let ds :=
    [ {| d_body := Scenario.body; d_paid_now := 1000; d_grant_now := 1001 |};
      {| d_body := Scenario.body; d_paid_now := 2000; d_grant_now := 2001 |} ] in
  let a := <["vipOrderIds" := (JArr [JStr "o0"])]> Scenario.user in
  let st :=
    {| AV.orders := [Scenario.order "pending"]; AV.users := <["u1" := a]> ∅ |} in
  exists a' more,
    AV.users (deliver_all Scenario.key ds st) !! "u1" = Some a' /\
    a' !! "vipOrderIds" = Some (JArr ([JStr "o0"] ++ more)) /\
    (length more <= length ds)%nat.
Proof.
  intros ds a st.
  apply (vipOrderIds_append_only Scenario.key ds st "u1" a [JStr "o0"]).
  - reflexivity.
  - reflexivity.
Defined.

Example vipOrderIds_after_two_deliveries :
  let ds :=
    [ {| d_body := Scenario.body; d_paid_now := 1000; d_grant_now := 1001 |};
      {| d_body := Scenario.body; d_paid_now := 2000; d_grant_now := 2001 |} ] in
  let a := <["vipOrderIds" := (JArr [JStr "o0"])]> Scenario.user in
  let st :=
    {| AV.orders := [Scenario.order "pending"]; AV.users := <["u1" := a]> ∅ |} in
  (AV.users (deliver_all Scenario.key ds st) !! "u1")
    ≫= (fun a' => a' !! "vipOrderIds")
  = Some (JArr [JStr "o0"; JStr "o1"]).
Proof. vm_compute. reflexivity. Qed.
